(** * Bech32 and Segwit-style witness addresses: a shallow embedding

    The Python module [src/__init__.py] is embedded function by function.
    Python integers are unbounded, so they are [Z]; the bit operators of the
    source are [Z.land], [Z.lor], [Z.lxor], [Z.shiftl] and [Z.shiftr].
    A Python [str] is a sequence of code points, so it is a list of [Z]
    and [ord] is the identity.  Operations of the source that can raise or
    loop are written in a small outcome monad. *)

From Stdlib Require Import String Ascii ZArith List Lia Bool.
From coqutil Require Import Z.prove_Zeq_bitwise.
Import ListNotations.
Local Open Scope Z_scope.

(** ** Python values *)

Definition char := Z.
Definition str := list char.

(** A Rocq string literal read as a Python [str]. *)
Definition str_of (s : string) : str :=
  map (fun a => Z.of_N (N_of_ascii a)) (list_ascii_of_string s).

Definition ord (x : char) : Z := x.

Definition len {A : Type} (l : list A) : Z := Z.of_nat (length l).

Fixpoint list_eqb {A : Type} (eqb : A -> A -> bool) (l1 l2 : list A) : bool :=
  match l1, l2 with
  | [], [] => true
  | x :: r1, y :: r2 => eqb x y && list_eqb eqb r1 r2
  | _, _ => false
  end.

Definition str_eqb : str -> str -> bool := list_eqb Z.eqb.

(** [==] between an [Optional[str]] and a [str]: [None] equals no string. *)
Definition opt_str_eqb (o : option str) (s : str) : bool :=
  match o with
  | Some t => str_eqb t s
  | None => false
  end.

(** [str.lower] and [str.upper].  The source calls them only behind the
    guard that every code point lies in [33,126] (the [or] of the guard
    short-circuits); on such strings they map the 26 ASCII letters and leave
    every other character alone, which is what is written here. *)
Definition lower_char (c : char) : char :=
  if (65 <=? c) && (c <=? 90) then c + 32 else c.

Definition upper_char (c : char) : char :=
  if (97 <=? c) && (c <=? 122) then c - 32 else c.

Definition lower (s : str) : str := map lower_char s.
Definition upper (s : str) : str := map upper_char s.

(** [s.rfind(c)] for a one-character needle: the index of the last
    occurrence, or -1. *)
Fixpoint rfind_from (i : Z) (s : str) (c : char) (last : Z) : Z :=
  match s with
  | [] => last
  | x :: r => rfind_from (i + 1) r c (if x =? c then i else last)
  end.

Definition rfind (s : str) (c : char) : Z := rfind_from 0 s c (-1).

(** [s.find(c)] for a one-character needle: the index of the first
    occurrence, or -1. *)
Fixpoint find_from (i : Z) (s : str) (c : char) : Z :=
  match s with
  | [] => -1
  | x :: r => if x =? c then i else find_from (i + 1) r c
  end.

Definition find (s : str) (c : char) : Z := find_from 0 s c.

(** [c in s] for a one-character [c]. *)
Definition str_in (c : char) (s : str) : bool := existsb (Z.eqb c) s.

(** Slices [s[i:]] and [s[:i]] at an index that is not negative. *)
Definition slice_from {A : Type} (s : list A) (i : Z) : list A := skipn (Z.to_nat i) s.
Definition slice_to {A : Type} (s : list A) (i : Z) : list A := firstn (Z.to_nat i) s.

(** [l[:-6]]: everything but the last six elements (nothing when there
    are fewer than six). *)
Definition drop_last6 {A : Type} (l : list A) : list A := firstn (length l - 6) l.

(** ** Outcomes of a call *)

Inductive exn : Type := IndexError | AssertionError | ValueError.

Inductive outcome (A : Type) : Type :=
| Ret (a : A)
| Raise (e : exn)
| Diverge.

Arguments Ret {A} a.
Arguments Raise {A} e.
Arguments Diverge {A}.

Definition bind {A B : Type} (m : outcome A) (k : A -> outcome B) : outcome B :=
  match m with
  | Ret a => k a
  | Raise e => Raise e
  | Diverge => Diverge
  end.

Notation "x <- m ;; k" := (bind m (fun x => k))
  (at level 61, m at next level, right associativity).
Notation "' p <- m ;; k" := (bind m (fun x => let p := x in k))
  (at level 61, p pattern, m at next level, right associativity).

Fixpoint mapM {A B : Type} (f : A -> outcome B) (l : list A) : outcome (list B) :=
  match l with
  | [] => Ret []
  | x :: r => y <- f x ;; ys <- mapM f r ;; Ret (y :: ys)
  end.

(** Python's shifts raise [ValueError] on a negative shift count. *)
Definition py_lshift (a n : Z) : outcome Z :=
  if n <? 0 then Raise ValueError else Ret (Z.shiftl a n).

Definition py_rshift (a n : Z) : outcome Z :=
  if n <? 0 then Raise ValueError else Ret (Z.shiftr a n).

(** ** Checksum engine *)

Definition CHARSET : str := str_of "qpzry9x8gf2tvdw0s3jn54khce6mua7l".

Definition generator : list Z :=
  [0x3b6a57b2; 0x26508e6d; 0x1ea119fa; 0x3d4233dd; 0x2a1462b3].

(** One round of the [for value in values] loop of [bech32_polymod]. *)
Definition polymod_step (chk value : Z) : Z :=
  let top := Z.shiftr chk 25 in
  let chk := Z.lxor (Z.shiftl (Z.land chk 0x1ffffff) 5) value in
  fold_left
    (fun chk i =>
       Z.lxor chk
         (if negb (Z.land (Z.shiftr top (Z.of_nat i)) 1 =? 0)
          then nth i generator 0 else 0))
    (seq 0 5) chk.

Definition bech32_polymod (values : list Z) : Z :=
  fold_left polymod_step values 1.

Definition bech32_hrp_expand (hrp : str) : list Z :=
  map (fun x => Z.shiftr (ord x) 5) hrp ++ [0] ++ map (fun x => Z.land (ord x) 31) hrp.

Definition bech32_verify_checksum (hrp : str) (data : list Z) : bool :=
  bech32_polymod (bech32_hrp_expand hrp ++ data) =? 1.

Definition bech32_create_checksum (hrp : str) (data : list Z) : list Z :=
  let values := bech32_hrp_expand hrp ++ data in
  let polymod := Z.lxor (bech32_polymod (values ++ [0; 0; 0; 0; 0; 0])) 1 in
  map (fun i => Z.land (Z.shiftr polymod (5 * (5 - Z.of_nat i))) 31) (seq 0 6).

(** ** Bech32 codec *)

(** [CHARSET[d]]: Python indexing, where -32..-1 count from the end and
    anything else outside 0..31 raises [IndexError]. *)
Definition charset_at (d : Z) : outcome char :=
  if (0 <=? d) && (d <? 32) then Ret (nth (Z.to_nat d) CHARSET 0)
  else if (-32 <=? d) && (d <? 0) then Ret (nth (Z.to_nat (d + 32)) CHARSET 0)
  else Raise IndexError.

Definition bech32_encode (hrp : str) (data : list Z) : outcome str :=
  let combined := data ++ bech32_create_checksum hrp data in
  chars <- mapM charset_at combined ;;
  Ret (hrp ++ str_of "1" ++ chars).

Definition one : char := 49.

Definition bech32_decode (bech : str) : option str * option (list Z) :=
  if existsb (fun x => (ord x <? 33) || (ord x >? 126)) bech then (None, None)
  else if negb (str_eqb (lower bech) bech) && negb (str_eqb (upper bech) bech)
  then (None, None)
  else
    let bech := lower bech in
    let pos := rfind bech one in
    if (pos <? 1) || (pos >? 83) || (pos + 7 >? len bech) then (None, None)
    else if negb (forallb (fun x => str_in x CHARSET) (slice_from bech (pos + 1)))
    then (None, None)
    else
      let hrp := slice_to bech pos in
      let data := map (fun x => find CHARSET x) (slice_from bech (pos + 1)) in
      if negb (bech32_verify_checksum hrp data) then (None, None)
      else (Some hrp, Some (drop_last6 data)).

(** ** Bit converter *)

(** The [while bits >= tobits] loop.  [fuel] bounds the number of rounds;
    the caller passes the value of [bits] on entry, which is enough whenever
    [tobits] is positive, and with [tobits = 0] the Python loop never ends. *)
Fixpoint while_emit (fuel : nat) (tobits maxv acc bits : Z) (ret : list Z)
  : outcome (Z * list Z) :=
  if bits >=? tobits then
    match fuel with
    | O => Diverge
    | S fuel' =>
        let bits := bits - tobits in
        sh <- py_rshift acc bits ;;
        while_emit fuel' tobits maxv acc bits (ret ++ [Z.land sh maxv])
    end
  else Ret (bits, ret).

(** The [for value in data] loop; [Ret None] is the early [return None]. *)
Fixpoint convert_loop (data : list Z) (frombits tobits maxv max_acc acc bits : Z)
  (ret : list Z) : outcome (option (Z * Z * list Z)) :=
  match data with
  | [] => Ret (Some (acc, bits, ret))
  | value :: rest =>
      if value <? 0 then Ret None
      else
        sh <- py_rshift value frombits ;;
        if negb (sh =? 0) then Ret None
        else
          a <- py_lshift acc frombits ;;
          let acc := Z.land (Z.lor a value) max_acc in
          let bits := bits + frombits in
          '(bits, ret) <- while_emit (Z.to_nat bits) tobits maxv acc bits ret ;;
          convert_loop rest frombits tobits maxv max_acc acc bits ret
  end.

Definition convertbits (data : list Z) (frombits tobits : Z) (pad : bool)
  : outcome (option (list Z)) :=
  p <- py_lshift 1 tobits ;;
  let maxv := p - 1 in
  q <- py_lshift 1 (frombits + tobits - 1) ;;
  let max_acc := q - 1 in
  st <- convert_loop data frombits tobits maxv max_acc 0 0 [] ;;
  match st with
  | None => Ret None
  | Some (acc, bits, ret) =>
      if pad then
        if negb (bits =? 0) then
          a <- py_lshift acc (tobits - bits) ;;
          Ret (Some (ret ++ [Z.land a maxv]))
        else Ret (Some ret)
      else if bits >=? frombits then Ret None
      else
        a <- py_lshift acc (tobits - bits) ;;
        if negb (Z.land a maxv =? 0) then Ret None else Ret (Some ret)
  end.

(** ** Witness address codec *)

Definition decode (hrp addr : str) : outcome (option Z * option (list Z)) :=
  let '(hrpgot, data) := bech32_decode addr in
  if negb (opt_str_eqb hrpgot hrp) then Ret (None, None)
  else
    match data with
    | None => Raise AssertionError
    | Some data =>
        decoded <- convertbits (slice_from data 1) 5 8 false ;;
        match decoded with
        | None => Ret (None, None)
        | Some decoded =>
            if (len decoded <? 2) || (len decoded >? 40) then Ret (None, None)
            else
              match data with
              | [] => Raise IndexError
              | d0 :: _ =>
                  if d0 >? 16 then Ret (None, None)
                  else if (d0 =? 0) && negb (len decoded =? 20) && negb (len decoded =? 32)
                  then Ret (None, None)
                  else Ret (Some d0, Some decoded)
              end
        end
    end.

Definition is_sentinel (r : option Z * option (list Z)) : bool :=
  match r with
  | (None, None) => true
  | _ => false
  end.

Definition encode (hrp : str) (witver : Z) (witprog : list Z) : outcome (option str) :=
  five_bit_witprog <- convertbits witprog 8 5 true ;;
  match five_bit_witprog with
  | None => Ret None
  | Some five_bit_witprog =>
      ret <- bech32_encode hrp (witver :: five_bit_witprog) ;;
      r <- decode hrp ret ;;
      if is_sentinel r then Ret None else Ret (Some ret)
  end.


(** * Properties *)

(** ** Booleans, strings and searching *)

Ltac bool_to_prop :=
  repeat first
    [ rewrite Bool.orb_true_iff in * | rewrite Bool.andb_true_iff in *
    | rewrite Bool.orb_false_iff in * | rewrite Bool.andb_false_iff in *
    | rewrite Bool.negb_true_iff in * | rewrite Bool.negb_false_iff in *
    | rewrite Z.ltb_lt in * | rewrite Z.ltb_ge in *
    | rewrite Z.leb_le in * | rewrite Z.leb_gt in *
    | rewrite Z.gtb_ltb in * | rewrite Z.geb_leb in *
    | rewrite Z.eqb_eq in * | rewrite Z.eqb_neq in * ].

Lemma str_eqb_eq (s t : str) : str_eqb s t = true <-> s = t.
Proof.
  unfold str_eqb. revert t.
  induction s as [|x s IH]; intros [|y t]; simpl; split; intros H;
    try reflexivity; try discriminate.
  - apply Bool.andb_true_iff in H as [Hx Hs].
    apply Z.eqb_eq in Hx. apply IH in Hs. congruence.
  - injection H as -> ->. rewrite Z.eqb_refl. simpl. now apply IH.
Qed.

Lemma str_eqb_neq (s t : str) : str_eqb s t = false <-> s <> t.
Proof.
  split; intros H.
  - intros E. apply str_eqb_eq in E. congruence.
  - destruct (str_eqb s t) eqn:E; [|reflexivity].
    apply str_eqb_eq in E. contradiction.
Qed.

Lemma len_app {A : Type} (l1 l2 : list A) : len (l1 ++ l2) = len l1 + len l2.
Proof. unfold len. rewrite length_app. lia. Qed.

Lemma len_nonneg {A : Type} (l : list A) : 0 <= len l.
Proof. unfold len. lia. Qed.

Lemma len_map {A B : Type} (f : A -> B) (l : list A) : len (map f l) = len l.
Proof. unfold len. now rewrite length_map. Qed.

Lemma lower_char_one (c : char) : (lower_char c =? one) = (c =? one).
Proof.
  unfold lower_char, one.
  destruct (65 <=? c) eqn:E1, (c <=? 90) eqn:E2; simpl; try reflexivity.
  bool_to_prop.
  destruct (c + 32 =? 49) eqn:E3, (c =? 49) eqn:E4; bool_to_prop; lia.
Qed.

Lemma lower_char_idem (c : char) : lower_char (lower_char c) = lower_char c.
Proof.
  unfold lower_char.
  destruct ((65 <=? c) && (c <=? 90)) eqn:E; [|now rewrite E].
  destruct ((65 <=? c + 32) && (c + 32 <=? 90)) eqn:E'; [|reflexivity].
  bool_to_prop. lia.
Qed.

Lemma lower_char_range (c : char) : 33 <= c <= 126 -> 33 <= lower_char c <= 126.
Proof.
  unfold lower_char. destruct ((65 <=? c) && (c <=? 90)) eqn:E; [|lia].
  bool_to_prop. lia.
Qed.

Lemma lower_idem (s : str) : lower (lower s) = lower s.
Proof.
  unfold lower. rewrite map_map. apply map_ext. apply lower_char_idem.
Qed.

Lemma len_lower (s : str) : len (lower s) = len s.
Proof. apply len_map. Qed.

Lemma rfind_from_lower (s : str) : forall i last,
  rfind_from i (lower s) one last = rfind_from i s one last.
Proof.
  induction s as [|x s IH]; intros i last; simpl; [reflexivity|].
  now rewrite lower_char_one, IH.
Qed.

Lemma rfind_lower (s : str) : rfind (lower s) one = rfind s one.
Proof. apply rfind_from_lower. Qed.

(** [rfind_from] returns either the fallback or an index of the scanned part. *)
Lemma rfind_from_cases (s : str) (c : char) : forall i last,
  rfind_from i s c last = last \/ i <= rfind_from i s c last < i + len s.
Proof.
  induction s as [|x s IH]; intros i last; simpl; [now left|].
  unfold len in *. simpl length. rewrite Nat2Z.inj_succ.
  destruct (IH (i + 1) (if x =? c then i else last)) as [E|E].
  - rewrite E. destruct (x =? c); [right; lia | now left].
  - right. lia.
Qed.

Lemma rfind_bounds (s : str) (c : char) : -1 <= rfind s c < len s.
Proof.
  unfold rfind. destruct (rfind_from_cases s c 0 (-1)) as [E|E].
  - rewrite E. pose proof (len_nonneg s). lia.
  - lia.
Qed.

(** A needle that does not occur in the tail is found no later than the head. *)
Lemma rfind_from_absent (s : str) (c : char) : forall i last,
  existsb (Z.eqb c) s = false -> rfind_from i s c last = last.
Proof.
  induction s as [|x s IH]; intros i last H; simpl in *; [reflexivity|].
  apply Bool.orb_false_iff in H as [Hx Hs].
  rewrite IH by assumption. rewrite Z.eqb_sym, Hx. reflexivity.
Qed.

Lemma rfind_from_app_sep (s t : str) (c : char) : forall i last,
  existsb (Z.eqb c) t = false ->
  rfind_from i (s ++ c :: t) c last = i + len s.
Proof.
  induction s as [|x s IH]; intros i last H; simpl.
  - rewrite Z.eqb_refl. rewrite rfind_from_absent by assumption.
    unfold len. simpl. lia.
  - rewrite IH by assumption. unfold len. simpl length. lia.
Qed.

Lemma rfind_app_sep (s t : str) (c : char) :
  existsb (Z.eqb c) t = false -> rfind (s ++ c :: t) c = len s.
Proof. intros H. unfold rfind. now rewrite rfind_from_app_sep. Qed.

(** ** What [bech32_decode] checks *)

Definition in_range (x : char) : bool := negb ((ord x <? 33) || (ord x >? 126)).

(** The data part of a lowercased string, as symbols. *)
Definition data_part (b : str) (pos : Z) : list Z :=
  map (fun x => find CHARSET x) (slice_from b (pos + 1)).

(** Every check of [bech32_decode] other than the two on the separator
    position ([pos < 1], [pos > 83]). *)
Definition otherwise_valid (bech : str) : bool :=
  forallb in_range bech
  && (str_eqb (lower bech) bech || str_eqb (upper bech) bech)
  && (rfind (lower bech) one + 7 <=? len (lower bech))
  && forallb (fun x => str_in x CHARSET) (slice_from (lower bech) (rfind (lower bech) one + 1))
  && bech32_verify_checksum (slice_to (lower bech) (rfind (lower bech) one))
       (data_part (lower bech) (rfind (lower bech) one)).

Lemma existsb_out_of_range (bech : str) :
  existsb (fun x => (ord x <? 33) || (ord x >? 126)) bech = negb (forallb in_range bech).
Proof.
  induction bech as [|x s IH]; simpl; [reflexivity|].
  rewrite IH. unfold in_range.
  destruct ((ord x <? 33) || (ord x >? 126)); simpl; [reflexivity|].
  reflexivity.
Qed.

Lemma bech32_decode_spec (bech : str) :
  bech32_decode bech =
    if otherwise_valid bech && (1 <=? rfind bech one) && (rfind bech one <=? 83)
    then (Some (slice_to (lower bech) (rfind bech one)),
          Some (drop_last6 (data_part (lower bech) (rfind bech one))))
    else (None, None).
Proof.
  unfold bech32_decode, otherwise_valid, data_part.
  rewrite existsb_out_of_range, !rfind_lower.
  set (pos := rfind bech one).
  destruct (forallb in_range bech); simpl; [|reflexivity].
  destruct (str_eqb (lower bech) bech); simpl.
  - destruct (pos <? 1) eqn:E1, (pos >? 83) eqn:E2, (pos + 7 >? len (lower bech)) eqn:E3;
      simpl; bool_to_prop;
      try (destruct (pos + 7 <=? len (lower bech)) eqn:E4; simpl;
           try rewrite !Bool.andb_false_r; try reflexivity);
      try (destruct (1 <=? pos) eqn:E5; simpl; try rewrite !Bool.andb_false_r;
           try reflexivity);
      try (destruct (pos <=? 83) eqn:E6; simpl; try rewrite !Bool.andb_false_r;
           try reflexivity);
      bool_to_prop; try lia.
    destruct (forallb _ _); simpl; [|reflexivity].
    destruct (bech32_verify_checksum _ _); reflexivity.
  - destruct (str_eqb (upper bech) bech); simpl; [|reflexivity].
    destruct (pos <? 1) eqn:E1, (pos >? 83) eqn:E2, (pos + 7 >? len (lower bech)) eqn:E3;
      simpl; bool_to_prop;
      try (destruct (pos + 7 <=? len (lower bech)) eqn:E4; simpl;
           try rewrite !Bool.andb_false_r; try reflexivity);
      try (destruct (1 <=? pos) eqn:E5; simpl; try rewrite !Bool.andb_false_r;
           try reflexivity);
      try (destruct (pos <=? 83) eqn:E6; simpl; try rewrite !Bool.andb_false_r;
           try reflexivity);
      bool_to_prop; try lia.
    destruct (forallb _ _); simpl; [|reflexivity].
    destruct (bech32_verify_checksum _ _); reflexivity.
Qed.

Lemma Forall_slice_to {A : Type} (P : A -> Prop) (l : list A) (i : Z) :
  Forall P l -> Forall P (slice_to l i).
Proof.
  intros H. unfold slice_to.
  rewrite <- (firstn_skipn (Z.to_nat i) l) in H.
  now apply Forall_app in H.
Qed.

Lemma Forall_slice_from {A : Type} (P : A -> Prop) (l : list A) (i : Z) :
  Forall P l -> Forall P (slice_from l i).
Proof.
  intros H. unfold slice_from.
  rewrite <- (firstn_skipn (Z.to_nat i) l) in H.
  now apply Forall_app in H.
Qed.

Lemma Forall_drop_last6 {A : Type} (P : A -> Prop) (l : list A) :
  Forall P l -> Forall P (drop_last6 l).
Proof.
  intros H. unfold drop_last6.
  rewrite <- (firstn_skipn (length l - 6) l) in H.
  now apply Forall_app in H.
Qed.

Lemma len_slice_to {A : Type} (l : list A) (i : Z) :
  0 <= i <= len l -> len (slice_to l i) = i.
Proof.
  intros H. unfold len, slice_to in *. rewrite firstn_length_le by lia. lia.
Qed.

Lemma len_slice_from {A : Type} (l : list A) (i : Z) :
  0 <= i <= len l -> len (slice_from l i) = len l - i.
Proof.
  intros H. unfold len, slice_from in *. rewrite length_skipn. lia.
Qed.

Lemma slice_to_from {A : Type} (l : list A) (i : Z) :
  slice_to l i ++ slice_from l i = l.
Proof. apply firstn_skipn. Qed.

Lemma forallb_in_range (s : str) :
  forallb in_range s = true <-> Forall (fun c => 33 <= c <= 126) s.
Proof.
  rewrite forallb_forall, Forall_forall. unfold in_range, ord.
  split; intros H x Hx; specialize (H x Hx); bool_to_prop; lia.
Qed.

Lemma find_from_range (s : str) (c : char) : forall i,
  str_in c s = true -> i <= find_from i s c < i + len s.
Proof.
  unfold str_in, len.
  induction s as [|x s IH]; intros i H; simpl in *; [discriminate|].
  rewrite Z.eqb_sym in H. destruct (x =? c); simpl in H; [lia|].
  specialize (IH (i + 1) H). lia.
Qed.

Lemma find_CHARSET_range (c : char) :
  str_in c CHARSET = true -> 0 <= find CHARSET c <= 31.
Proof.
  intros H. pose proof (find_from_range CHARSET c 0 H) as R.
  change (len CHARSET) with 32 in R. unfold find. lia.
Qed.

Lemma data_part_range (b : str) (pos : Z) :
  forallb (fun x => str_in x CHARSET) (slice_from b (pos + 1)) = true ->
  Forall (fun d => 0 <= d <= 31) (data_part b pos).
Proof.
  intros H. unfold data_part. apply Forall_map.
  rewrite forallb_forall in H. apply Forall_forall. intros x Hx.
  apply find_CHARSET_range. now apply H.
Qed.

(** Success of [bech32_decode], read off its checks. *)
Lemma bech32_decode_success (bech hrp : str) (data : list Z) :
  bech32_decode bech = (Some hrp, Some data) ->
  otherwise_valid bech = true /\ 1 <= rfind bech one <= 83 /\
  hrp = slice_to (lower bech) (rfind bech one) /\
  data = drop_last6 (data_part (lower bech) (rfind bech one)).
Proof.
  rewrite bech32_decode_spec.
  destruct (otherwise_valid bech) eqn:V; simpl; [|discriminate].
  destruct (1 <=? rfind bech one) eqn:E1; simpl; [|discriminate].
  destruct (rfind bech one <=? 83) eqn:E2; simpl; [|discriminate].
  intros H. injection H as <- <-. bool_to_prop. repeat split; trivial.
Qed.

Lemma otherwise_valid_parts (bech : str) :
  otherwise_valid bech = true ->
  Forall (fun c => 33 <= c <= 126) bech /\
  (lower bech = bech \/ upper bech = bech) /\
  rfind bech one + 7 <= len bech /\
  forallb (fun x => str_in x CHARSET) (slice_from (lower bech) (rfind bech one + 1)) = true /\
  bech32_verify_checksum (slice_to (lower bech) (rfind bech one))
    (data_part (lower bech) (rfind bech one)) = true.
Proof.
  unfold otherwise_valid. rewrite !rfind_lower, len_lower. intros H.
  apply Bool.andb_true_iff in H as [H H5].
  apply Bool.andb_true_iff in H as [H H4].
  apply Bool.andb_true_iff in H as [H H3].
  apply Bool.andb_true_iff in H as [H1 H2].
  apply forallb_in_range in H1. apply Z.leb_le in H3.
  apply Bool.orb_true_iff in H2. rewrite !str_eqb_eq in H2.
  repeat split; assumption.
Qed.

(** ** The published vector and the HRP comparison *)

Definition bc_zero_address : str := str_of "bc1qqqqqqqqqqqqqqqqqqqqqqqqqqqqqqqqq9e75rs".

(** C4, as amended: [encode("bc", 0, witprog)] with [witprog] twenty zero
    bytes returns exactly the string "bc1qqqqqqqqqqqqqqqqqqqqqqqqqqqqqqqqq9e75rs"
    (thirty-three symbols [q] for the version and the program, then the
    checksum [9e75rs]). *)
Theorem encode_bc_zero_program :
  encode (str_of "bc") 0 (repeat 0 20) = Ret (Some bc_zero_address).
Proof. vm_compute. reflexivity. Qed.

(** C4, counterexample: the string the claim names is not what [encode]
    returns on that input; [bech32_decode] does not even accept it. *)
Lemma encode_bc_zero_program_not_c8gma6 :
  encode (str_of "bc") 0 (repeat 0 20)
    <> Ret (Some (str_of "bc1qqqqqqqqqqqqqqqqqqqqqqqqqqqqqqqqqqqqqc8gma6"))
  /\ bech32_decode (str_of "bc1qqqqqqqqqqqqqqqqqqqqqqqqqqqqqqqqqqqqqc8gma6") = (None, None).
Proof. split; [vm_compute; discriminate | vm_compute; reflexivity]. Qed.

(** The test of line 93, [hrpgot != hrp]. *)
Definition hrp_mismatch (hrp addr : str) : bool :=
  negb (opt_str_eqb (fst (bech32_decode addr)) hrp).

Lemma opt_str_eqb_eq (o : option str) (s : str) : opt_str_eqb o s = true <-> o = Some s.
Proof.
  destruct o as [t|]; simpl.
  - rewrite str_eqb_eq. split; congruence.
  - split; discriminate.
Qed.

Lemma decode_mismatch (hrp addr : str) :
  hrp_mismatch hrp addr = true -> decode hrp addr = Ret (None, None).
Proof.
  unfold hrp_mismatch, decode. destruct (bech32_decode addr) as [hrpgot data].
  simpl. now intros ->.
Qed.

Lemma decode_success_hrp (hrp addr : str) (v : Z) (p : list Z) :
  decode hrp addr = Ret (Some v, Some p) -> fst (bech32_decode addr) = Some hrp.
Proof.
  intros H. destruct (hrp_mismatch hrp addr) eqn:E.
  - rewrite decode_mismatch in H by assumption. discriminate.
  - unfold hrp_mismatch in E. apply Bool.negb_false_iff in E.
    now apply opt_str_eqb_eq.
Qed.

(** C3, as amended: the expected [hrp] is compared exactly as given, with
    no case normalisation, to the (lowercased) HRP that [bech32_decode]
    returns.  The HRP test fails if and only if they differ (or
    [bech32_decode] failed), a failed test makes [decode] return the
    sentinel, and when [decode(h, addr)] succeeds [h] is lowercase and
    every other expected HRP, [uppercase(h)] included when it differs from
    [h], gets the sentinel. *)
Theorem decode_compares_hrp_exactly (hrp addr : str) :
  (hrp_mismatch hrp addr = true <-> fst (bech32_decode addr) <> Some hrp) /\
  (hrp_mismatch hrp addr = true -> decode hrp addr = Ret (None, None)) /\
  (forall v p, decode hrp addr = Ret (Some v, Some p) ->
     lower hrp = hrp /\
     forall h', h' <> hrp -> decode h' addr = Ret (None, None)).
Proof.
  split; [|split].
  - unfold hrp_mismatch. rewrite Bool.negb_true_iff.
    rewrite <- opt_str_eqb_eq.
    destruct (opt_str_eqb (fst (bech32_decode addr)) hrp); split; congruence.
  - apply decode_mismatch.
  - intros v p H. apply decode_success_hrp in H.
    destruct (bech32_decode addr) as [hrpgot data] eqn:D. simpl in H. subst hrpgot.
    split.
    + destruct data as [data|].
      * apply bech32_decode_success in D as (_ & _ & -> & _).
        unfold slice_to, lower. rewrite <- firstn_map, map_map.
        f_equal. apply map_ext. apply lower_char_idem.
      * rewrite bech32_decode_spec in D.
        destruct (otherwise_valid addr && _ && _); discriminate.
    + intros h' Hh. apply decode_mismatch. unfold hrp_mismatch. rewrite D. simpl.
      apply Bool.negb_true_iff. apply str_eqb_neq. congruence.
Qed.

(** C3, counterexample: ["bc"] is lowercase and [decode("bc", addr)]
    succeeds, yet [decode("BC", addr)] returns the sentinel. *)
Lemma decode_uppercase_hrp_rejected :
  lower (str_of "bc") = str_of "bc" /\
  upper (str_of "bc") = str_of "BC" /\
  decode (str_of "bc") bc_zero_address = Ret (Some 0, Some (repeat 0 20)) /\
  decode (upper (str_of "bc")) bc_zero_address = Ret (None, None).
Proof. repeat split; vm_compute; reflexivity. Qed.

(** ** Separator position and total length *)

Lemma bech32_decode_pos_reject (bech : str) :
  rfind bech one < 1 \/ 83 < rfind bech one \/ len bech < rfind bech one + 7 ->
  bech32_decode bech = (None, None).
Proof.
  intros H. rewrite bech32_decode_spec.
  destruct (otherwise_valid bech) eqn:V; simpl; [|reflexivity].
  apply otherwise_valid_parts in V as (_ & _ & L & _).
  destruct (1 <=? rfind bech one) eqn:E1; simpl; [|reflexivity].
  destruct (rfind bech one <=? 83) eqn:E2; simpl; [|reflexivity].
  bool_to_prop. lia.
Qed.

(** Ninety-three characters: ["a1"], eighty-five [q] and the checksum. *)
Definition long_bech : str := str_of "a1" ++ repeat 113 85 ++ str_of "xlluef".

(** Separator at index 83, nothing but the checksum after it. *)
Definition sep83_bech : str := repeat 97 83 ++ str_of "17vhfd0".

(** Separator at index 84, nothing but the checksum after it. *)
Definition sep84_bech : str := repeat 97 84 ++ str_of "1jsd6e5".

(** C2, counterexample: a string of 93 characters that [bech32_decode]
    accepts. *)
Lemma bech32_decode_accepts_93_chars :
  len long_bech = 93 /\
  bech32_decode long_bech = (Some (str_of "a"), Some (repeat 0 85)).
Proof. split; vm_compute; reflexivity. Qed.

(** C7: the separator position is accepted exactly in [1, 83].  A string
    that passes every other check and has its last ["1"] at an index in
    [1, 83] (so at 83) decodes to its lowercased HRP and its data symbols;
    an index of 84 or more, an index of 0 and an absent ["1"] (where
    [rfind] is -1) give the sentinel, whatever the rest of the string is. *)
Theorem separator_position_boundary (bech : str) :
  let pos := rfind bech one in
  (otherwise_valid bech = true -> 1 <= pos <= 83 ->
     bech32_decode bech =
       (Some (slice_to (lower bech) pos), Some (drop_last6 (data_part (lower bech) pos)))) /\
  (84 <= pos -> bech32_decode bech = (None, None)) /\
  (pos = 0 \/ pos = -1 -> bech32_decode bech = (None, None)).
Proof.
  intros pos. subst pos. split; [|split].
  - intros V P. rewrite bech32_decode_spec, V.
    destruct (1 <=? rfind bech one) eqn:E1, (rfind bech one <=? 83) eqn:E2;
      bool_to_prop; try lia. reflexivity.
  - intros P. apply bech32_decode_pos_reject. lia.
  - intros P. apply bech32_decode_pos_reject. lia.
Qed.

(** At the boundary itself: index 83 is accepted, index 84 is refused
    although every other check passes. *)
Lemma separator_position_boundary_witness :
  (rfind sep83_bech one = 83 /\ otherwise_valid sep83_bech = true /\
   bech32_decode sep83_bech = (Some (repeat 97 83), Some [])) /\
  (rfind sep84_bech one = 84 /\ otherwise_valid sep84_bech = true /\
   bech32_decode sep84_bech = (None, None)) /\
  (rfind (str_of "17vhfd0") one = 0 /\ bech32_decode (str_of "17vhfd0") = (None, None)) /\
  (rfind (str_of "a7vhfd0") one = -1 /\ bech32_decode (str_of "a7vhfd0") = (None, None)).
Proof.
  split; [|split; [|split]].
  - split; [vm_compute; reflexivity|]. split; [vm_compute; reflexivity|].
    destruct (separator_position_boundary sep83_bech) as (A & _ & _).
    rewrite A; [vm_compute; reflexivity | vm_compute; reflexivity | vm_compute; split; discriminate].
  - split; [vm_compute; reflexivity|]. split; [vm_compute; reflexivity|].
    destruct (separator_position_boundary sep84_bech) as (_ & B & _).
    apply B. vm_compute. discriminate.
  - split; [vm_compute; reflexivity|].
    destruct (separator_position_boundary (str_of "17vhfd0")) as (_ & _ & C).
    apply C. left. vm_compute. reflexivity.
  - split; [vm_compute; reflexivity|].
    destruct (separator_position_boundary (str_of "a7vhfd0")) as (_ & _ & C).
    apply C. right. vm_compute. reflexivity.
Defined.

(** ** What a successful [bech32_decode] returns *)

(** C10: when [bech32_decode] succeeds, the HRP it returns is non-empty,
    equal to its own lowercase form, at most 83 characters long, made of
    code points in [33,126], and every returned data value is in [0,31]. *)
Theorem bech32_decode_output_invariant (bech hrp : str) (data : list Z) :
  bech32_decode bech = (Some hrp, Some data) ->
  hrp <> [] /\ lower hrp = hrp /\ len hrp <= 83 /\
  Forall (fun c => 33 <= c <= 126) hrp /\
  Forall (fun d => 0 <= d <= 31) data.
Proof.
  intros H. apply bech32_decode_success in H as (V & P & -> & ->).
  apply otherwise_valid_parts in V as (R & _ & L & Cs & _).
  assert (Hl : len (slice_to (lower bech) (rfind bech one)) = rfind bech one).
  { apply len_slice_to. rewrite len_lower. lia. }
  repeat split.
  - intros E. rewrite E in Hl. unfold len in Hl. simpl in Hl. lia.
  - unfold slice_to, lower. rewrite <- firstn_map, map_map.
    f_equal. apply map_ext. apply lower_char_idem.
  - lia.
  - apply Forall_slice_to. unfold lower. apply Forall_map.
    revert R. apply Forall_impl. intros c. apply lower_char_range.
  - apply Forall_drop_last6. now apply data_part_range.
Qed.

Lemma bech32_decode_output_invariant_witness :
  str_of "abcdef" <> [] /\ lower (str_of "abcdef") = str_of "abcdef" /\
  len (str_of "abcdef") <= 83 /\
  Forall (fun c => 33 <= c <= 126) (str_of "abcdef") /\
  Forall (fun d => 0 <= d <= 31) [0; 1; 2; 3; 4; 5; 6; 7; 8; 9; 10; 11; 12; 13; 14; 15;
     16; 17; 18; 19; 20; 21; 22; 23; 24; 25; 26; 27; 28; 29; 30; 31].
Proof.
  apply (bech32_decode_output_invariant
           (str_of "ABCDEF1QPZRY9X8GF2TVDW0S3JN54KHCE6MUA7LMQQQXW")).
  vm_compute. reflexivity.
Defined.

(** ** Values that fit in a number of bits *)

Definition in_bits (n x : Z) : Prop := 0 <= x < 2 ^ n.

Lemma in_bits_land (n x : Z) : 0 <= n -> in_bits n x <-> Z.land x (Z.ones n) = x.
Proof.
  intros Hn. unfold in_bits. rewrite Z.land_ones by assumption. split; intros H.
  - now apply Z.mod_small.
  - rewrite <- H. apply Z.mod_pos_bound. now apply Z.pow_pos_nonneg.
Qed.

Lemma in_bits_lxor (n a b : Z) : 0 <= n -> in_bits n a -> in_bits n b -> in_bits n (Z.lxor a b).
Proof.
  intros Hn Ha Hb. apply in_bits_land; [assumption|].
  apply in_bits_land in Ha, Hb; try assumption.
  rewrite <- Ha, <- Hb at 2. prove_Zeq_bitwise.
Qed.

(** ** The checksum is linear over GF(2) *)

Module Polymod.

(** The generator terms selected by the low five bits of [top]. *)
Definition gen_mix (top : Z) : Z :=
  fold_left
    (fun acc i => Z.lxor acc (if Z.testbit top (Z.of_nat i) then nth i generator 0 else 0))
    (seq 0 5) 0.

Lemma in_bits_generator (i : nat) : in_bits 30 (nth i generator 0).
Proof.
  unfold in_bits.
  do 5 (destruct i as [|i]; [vm_compute; split; [discriminate | reflexivity]|]).
  destruct i; vm_compute; split; try discriminate; reflexivity.
Qed.

Lemma bit_test (top i : Z) :
  negb (Z.land (Z.shiftr top i) 1 =? 0) = Z.testbit top i.
Proof.
  rewrite Z.testbit_odd. change 1 with (Z.ones 1) at 1.
  rewrite Z.land_ones by lia. change (2 ^ 1) with 2.
  rewrite Zmod_odd. now destruct (Z.odd (Z.shiftr top i)).
Qed.

Lemma fold_lxor_init {A : Type} (g : A -> Z) (l : list A) : forall x,
  fold_left (fun acc i => Z.lxor acc (g i)) l x
  = Z.lxor x (fold_left (fun acc i => Z.lxor acc (g i)) l 0).
Proof.
  induction l as [|i l IH]; intros x; simpl.
  - now rewrite Z.lxor_0_r.
  - rewrite IH. rewrite (IH (g i)). now rewrite Z.lxor_assoc.
Qed.

Lemma fold_lxor_split {A : Type} (f h : A -> Z) (l : list A) : forall x y,
  fold_left (fun acc i => Z.lxor acc (Z.lxor (f i) (h i))) l (Z.lxor x y)
  = Z.lxor (fold_left (fun acc i => Z.lxor acc (f i)) l x)
           (fold_left (fun acc i => Z.lxor acc (h i)) l y).
Proof.
  induction l as [|i l IH]; intros x y; simpl; [reflexivity|].
  rewrite <- IH. f_equal. prove_Zeq_bitwise.
Qed.

Lemma fold_lxor_ext {A : Type} (f h : A -> Z) (l : list A) (x : Z) :
  (forall i, f i = h i) ->
  fold_left (fun acc i => Z.lxor acc (f i)) l x
  = fold_left (fun acc i => Z.lxor acc (h i)) l x.
Proof.
  intros E. revert x. induction l as [|i l IH]; intros x; simpl; [reflexivity|].
  now rewrite E, IH.
Qed.

Lemma fold_lxor_in_bits {A : Type} (g : A -> Z) (l : list A) : forall x,
  in_bits 30 x -> (forall i, in_bits 30 (g i)) ->
  in_bits 30 (fold_left (fun acc i => Z.lxor acc (g i)) l x).
Proof.
  induction l as [|i l IH]; intros x Hx Hg; simpl; [assumption|].
  apply IH; [|assumption]. apply in_bits_lxor; [lia | assumption | apply Hg].
Qed.

(** One round, as shift, input value and generator mix. *)
Lemma polymod_step_eq (chk value : Z) :
  polymod_step chk value
  = Z.lxor (Z.lxor (Z.shiftl (Z.land chk (Z.ones 25)) 5) value)
           (gen_mix (Z.shiftr chk 25)).
Proof.
  unfold polymod_step, gen_mix. rewrite fold_lxor_init. f_equal.
  apply fold_lxor_ext. intros i. now rewrite bit_test.
Qed.

Lemma gen_mix_lxor (s t : Z) : gen_mix (Z.lxor s t) = Z.lxor (gen_mix s) (gen_mix t).
Proof.
  unfold gen_mix. rewrite <- (Z.lxor_0_r 0) at 1. rewrite <- fold_lxor_split.
  apply fold_lxor_ext. intros i. rewrite Z.lxor_spec.
  destruct (Z.testbit s (Z.of_nat i)), (Z.testbit t (Z.of_nat i)); simpl;
    now rewrite ?Z.lxor_nilpotent, ?Z.lxor_0_r, ?Z.lxor_0_l.
Qed.

Lemma gen_mix_0 : gen_mix 0 = 0.
Proof. reflexivity. Qed.

Lemma gen_mix_in_bits (top : Z) : in_bits 30 (gen_mix top).
Proof.
  unfold gen_mix. apply fold_lxor_in_bits.
  - unfold in_bits. lia.
  - intros i. destruct (Z.testbit top (Z.of_nat i)).
    + apply in_bits_generator.
    + unfold in_bits. lia.
Qed.

(** The round is linear in the pair (state, input). *)
Lemma polymod_step_lxor (a b v w : Z) :
  polymod_step (Z.lxor a b) (Z.lxor v w)
  = Z.lxor (polymod_step a v) (polymod_step b w).
Proof.
  rewrite !polymod_step_eq. rewrite Z.shiftr_lxor, gen_mix_lxor.
  generalize (gen_mix (Z.shiftr a 25)), (gen_mix (Z.shiftr b 25)). intros g h.
  prove_Zeq_bitwise.
Qed.

Lemma polymod_step_in_bits (chk value : Z) :
  in_bits 30 value -> in_bits 30 (polymod_step chk value).
Proof.
  intros Hv. rewrite polymod_step_eq.
  apply in_bits_lxor; [lia| |apply gen_mix_in_bits].
  apply in_bits_lxor; [lia| |assumption].
  apply in_bits_land; [lia|]. prove_Zeq_bitwise.
Qed.

(** A state below 2^25 is only shifted. *)
Lemma polymod_step_small (d value : Z) :
  in_bits 25 d -> polymod_step d value = Z.lxor (Z.shiftl d 5) value.
Proof.
  intros Hd. unfold in_bits in Hd. rewrite polymod_step_eq.
  replace (Z.shiftr d 25) with 0 by (symmetry; prove_Zeq_bitwise).
  rewrite gen_mix_0, Z.lxor_0_r. f_equal. prove_Zeq_bitwise.
Qed.

Fixpoint lxor_lists (l1 l2 : list Z) : list Z :=
  match l1, l2 with
  | x :: r1, y :: r2 => Z.lxor x y :: lxor_lists r1 r2
  | _, _ => []
  end.

Lemma polymod_fold_lxor (l1 : list Z) : forall l2 a b,
  length l1 = length l2 ->
  fold_left polymod_step (lxor_lists l1 l2) (Z.lxor a b)
  = Z.lxor (fold_left polymod_step l1 a) (fold_left polymod_step l2 b).
Proof.
  induction l1 as [|x l1 IH]; intros [|y l2] a b H; simpl in *; try discriminate.
  - reflexivity.
  - rewrite polymod_step_lxor. apply IH. lia.
Qed.

End Polymod.

(** ** A created checksum verifies *)

Section ChecksumVerifies.

Import Polymod.

(** The six symbols of [bech32_create_checksum] cut from [polymod]. *)
Definition checksum_symbols (polymod : Z) : list Z :=
  map (fun i => Z.land (Z.shiftr polymod (5 * (5 - Z.of_nat i))) 31) (seq 0 6).

Lemma six_zero_rounds_in_bits (s : Z) :
  in_bits 30 (fold_left polymod_step [0; 0; 0; 0; 0; 0] s).
Proof.
  cbn [fold_left]. apply polymod_step_in_bits. unfold in_bits. lia.
Qed.

(** Feeding the six symbols of [p] to the all-zero state rebuilds [p]. *)
Lemma checksum_symbols_pack (p : Z) :
  in_bits 30 p -> fold_left polymod_step (checksum_symbols p) 0 = p.
Proof.
  unfold in_bits. intros Hp. unfold checksum_symbols.
  cbn [map seq fold_left Z.of_nat Pos.of_succ_nat Pos.succ].
  change (5 * (5 - 0)) with 25. change (5 * (5 - 1)) with 20.
  change (5 * (5 - 2)) with 15. change (5 * (5 - 3)) with 10.
  change (5 * (5 - 4)) with 5. change (5 * (5 - 5)) with 0.
  change 31 with (Z.ones 5).
  rewrite (polymod_step_small 0) by (unfold in_bits; lia).
  rewrite Z.shiftl_0_l, Z.lxor_0_l.
  repeat match goal with
    | |- context [polymod_step ?d ?v] =>
        lazymatch d with
        | context [polymod_step] => fail
        | _ => rewrite (polymod_step_small d v)
                 by (apply in_bits_land; [lia | prove_Zeq_bitwise])
        end
    end.
  prove_Zeq_bitwise.
Qed.

Lemma lxor_lists_zeros (c : list Z) :
  length c = 6%nat -> lxor_lists [0; 0; 0; 0; 0; 0] c = c.
Proof.
  intros H. do 6 (destruct c as [|? c]; [discriminate|]).
  destruct c; [|discriminate]. reflexivity.
Qed.

(** From any state, the checksum computed through six zero rounds brings
    the residue to 1. *)
Lemma checksum_residue (s : Z) :
  fold_left polymod_step
    (checksum_symbols (Z.lxor (fold_left polymod_step [0; 0; 0; 0; 0; 0] s) 1)) s = 1.
Proof.
  set (z := fold_left polymod_step [0; 0; 0; 0; 0; 0] s).
  assert (Hz : in_bits 30 z) by apply six_zero_rounds_in_bits.
  assert (Hp : in_bits 30 (Z.lxor z 1)).
  { apply in_bits_lxor; [lia | assumption | unfold in_bits; lia]. }
  rewrite <- (lxor_lists_zeros (checksum_symbols (Z.lxor z 1))) by reflexivity.
  rewrite <- (Z.lxor_0_r s) at 1.
  rewrite polymod_fold_lxor by reflexivity.
  fold z. rewrite checksum_symbols_pack by assumption.
  rewrite <- Z.lxor_assoc, Z.lxor_nilpotent. apply Z.lxor_0_l.
Qed.

Lemma create_checksum_residue (hrp : str) (data : list Z) :
  bech32_polymod (bech32_hrp_expand hrp ++ data ++ bech32_create_checksum hrp data) = 1.
Proof.
  unfold bech32_create_checksum, bech32_polymod.
  rewrite app_assoc, !fold_left_app.
  apply checksum_residue.
Qed.

Lemma create_checksum_verifies (hrp : str) (data : list Z) :
  bech32_verify_checksum hrp (data ++ bech32_create_checksum hrp data) = true.
Proof.
  unfold bech32_verify_checksum. now rewrite create_checksum_residue.
Qed.

Lemma create_checksum_length (hrp : str) (data : list Z) :
  length (bech32_create_checksum hrp data) = 6%nat.
Proof. reflexivity. Qed.

Lemma create_checksum_range (hrp : str) (data : list Z) :
  Forall (fun d => 0 <= d <= 31) (bech32_create_checksum hrp data).
Proof.
  unfold bech32_create_checksum. apply Forall_map, Forall_forall. intros i _.
  generalize (Z.shiftr
    (Z.lxor (bech32_polymod ((bech32_hrp_expand hrp ++ data) ++ [0; 0; 0; 0; 0; 0])) 1)
    (5 * (5 - Z.of_nat i))). intros x.
  assert (E : Z.land x 31 = x mod 32) by (apply (Z.land_ones x 5); lia).
  rewrite E. pose proof (Z.mod_pos_bound x 32 eq_refl) as B. lia.
Qed.

End ChecksumVerifies.

(** C5: for every HRP and every sequence of 5-bit values, the data
    followed by its created checksum verifies: the polymod of the expanded
    HRP, the data and the checksum is the constant 1. *)
Theorem created_checksum_verifies (hrp : str) (data : list Z) :
  Forall (fun d => 0 <= d <= 31) data ->
  bech32_verify_checksum hrp (data ++ bech32_create_checksum hrp data) = true /\
  bech32_polymod (bech32_hrp_expand hrp ++ data ++ bech32_create_checksum hrp data) = 1.
Proof.
  intros _. split; [apply create_checksum_verifies | apply create_checksum_residue].
Qed.

Lemma created_checksum_verifies_witness :
  bech32_verify_checksum (str_of "bc")
    ([0; 14; 20; 15] ++ bech32_create_checksum (str_of "bc") [0; 14; 20; 15]) = true /\
  bech32_polymod
    (bech32_hrp_expand (str_of "bc") ++ [0; 14; 20; 15]
       ++ bech32_create_checksum (str_of "bc") [0; 14; 20; 15]) = 1.
Proof.
  apply (created_checksum_verifies (str_of "bc") [0; 14; 20; 15]).
  repeat constructor; lia.
Defined.

(** ** The bit converter regroups a bit string *)

(** The bit string of a sequence of [w]-bit values, most significant
    first, appended below the bits of [a]. *)
Definition bits_fold (w a : Z) (l : list Z) : Z :=
  fold_left (fun a x => Z.lor (Z.shiftl a w) x) l a.

Definition be_value (w : Z) (l : list Z) : Z := bits_fold w 0 l.

Lemma bits_fold_snoc (w a x : Z) (l : list Z) :
  bits_fold w a (l ++ [x]) = Z.lor (Z.shiftl (bits_fold w a l) w) x.
Proof. unfold bits_fold. now rewrite fold_left_app. Qed.

Lemma bits_fold_inj (w : Z) (l1 : list Z) : forall l2 a1 a2,
  0 <= w -> length l1 = length l2 ->
  Forall (in_bits w) l1 -> Forall (in_bits w) l2 ->
  bits_fold w a1 l1 = bits_fold w a2 l2 -> a1 = a2 /\ l1 = l2.
Proof.
  induction l1 as [|x l1 IH]; intros [|y l2] a1 a2 Hw Hl H1 H2 E;
    simpl in Hl; try discriminate.
  - now split.
  - inversion H1 as [|? ? Hx H1']; subst. inversion H2 as [|? ? Hy H2']; subst.
    unfold bits_fold in E. simpl in E.
    apply (IH l2) in E as [E ->]; try assumption; [|lia].
    unfold in_bits in Hx, Hy.
    assert (Ex : x = y).
    { apply (f_equal (fun z => Z.land z (Z.ones w))) in E.
      replace (Z.land (Z.lor (Z.shiftl a1 w) x) (Z.ones w)) with x in E
        by (symmetry; prove_Zeq_bitwise).
      replace (Z.land (Z.lor (Z.shiftl a2 w) y) (Z.ones w)) with y in E
        by (symmetry; prove_Zeq_bitwise).
      exact E. }
    assert (Ea : a1 = a2).
    { apply (f_equal (fun z => Z.shiftr z w)) in E.
      replace (Z.shiftr (Z.lor (Z.shiftl a1 w) x) w) with a1 in E
        by (symmetry; prove_Zeq_bitwise).
      replace (Z.shiftr (Z.lor (Z.shiftl a2 w) y) w) with a2 in E
        by (symmetry; prove_Zeq_bitwise).
      exact E. }
    subst. now split.
Qed.

Lemma in_bits_land_ones (w x : Z) : 0 <= w -> in_bits w (Z.land x (Z.ones w)).
Proof. intros Hw. apply in_bits_land; [assumption|]. prove_Zeq_bitwise. Qed.

Lemma shiftl_1_pred (n : Z) : 0 <= n -> Z.shiftl 1 n - 1 = Z.ones n.
Proof. intros Hn. rewrite Z.ones_equiv, Z.shiftl_1_l. lia. Qed.

Section Convertbits.

Variables frombits tobits : Z.
Hypothesis frombits_pos : 0 < frombits.
Hypothesis tobits_pos : 0 < tobits.

Let maxv := Z.ones tobits.
Let max_acc := Z.ones (frombits + tobits - 1).

(** The loop invariant at the head of the [for] loop, after [n] input
    values whose bit string is [V]: [acc] holds the low bits of [V], [ret]
    holds all of [V] but its last [bits] bits, cut into [tobits]-bit
    values. *)
Definition conv_inv (V n acc bits : Z) (ret : list Z) : Prop :=
  0 <= bits < tobits /\
  acc = Z.land V max_acc /\
  be_value tobits ret = Z.shiftr V bits /\
  Forall (in_bits tobits) ret /\
  len ret * tobits + bits = frombits * n.

Lemma while_emit_spec (fuel : nat) : forall acc bits ret V m,
  0 <= bits <= frombits + tobits - 1 -> (Z.to_nat bits <= fuel)%nat ->
  acc = Z.land V max_acc ->
  be_value tobits ret = Z.shiftr V bits ->
  Forall (in_bits tobits) ret ->
  len ret * tobits + bits = m ->
  exists bits' ret',
    while_emit fuel tobits maxv acc bits ret = Ret (bits', ret') /\
    0 <= bits' < tobits /\
    be_value tobits ret' = Z.shiftr V bits' /\
    Forall (in_bits tobits) ret' /\
    len ret' * tobits + bits' = m.
Proof.
  induction fuel as [|fuel IH]; intros acc bits ret V m Hb Hfuel Hacc Hret Hrange Hlen;
    cbn [while_emit]; destruct (bits >=? tobits) eqn:E;
    rewrite Z.geb_leb in E; bool_to_prop.
  - lia.
  - exists bits, ret. repeat split; trivial; lia.
  - unfold py_rshift. destruct (bits - tobits <? 0) eqn:E'; bool_to_prop; [lia|].
    cbn [bind]. apply IH with (V := V); try lia.
    + unfold be_value in *. rewrite bits_fold_snoc, Hret. subst acc.
      unfold maxv, max_acc. prove_Zeq_bitwise.
    + apply Forall_app. split; [assumption|].
      constructor; [|constructor]. apply in_bits_land_ones. lia.
    + rewrite len_app. change (len [Z.land (Z.shiftr acc (bits - tobits)) maxv]) with 1.
      lia.
  - exists bits, ret. repeat split; trivial; lia.
Qed.

Lemma accepted_value_in_bits (value : Z) :
  (value <? 0) = false -> (Z.shiftr value frombits =? 0) = true ->
  in_bits frombits value.
Proof.
  intros H1 H2. bool_to_prop. rewrite Z.shiftr_div_pow2 in H2 by lia.
  apply Z.div_small_iff in H2; [|apply Z.pow_nonzero; lia].
  unfold in_bits. pose proof (Z.pow_pos_nonneg 2 frombits). lia.
Qed.

Lemma in_bits_accepted (value : Z) :
  in_bits frombits value ->
  (value <? 0) = false /\ (Z.shiftr value frombits =? 0) = true.
Proof.
  unfold in_bits. intros H. split; bool_to_prop; [lia|].
  rewrite Z.shiftr_div_pow2 by lia. apply Z.div_small. lia.
Qed.

(** The [for] loop: it stops with [None] exactly when some value does
    not fit in [frombits] bits, and otherwise keeps the invariant. *)
Lemma convert_loop_spec (data : list Z) : forall acc bits ret V n,
  conv_inv V n acc bits ret ->
  (convert_loop data frombits tobits maxv max_acc acc bits ret = Ret None /\
   ~ Forall (in_bits frombits) data) \/
  (Forall (in_bits frombits) data /\
   exists acc' bits' ret',
     convert_loop data frombits tobits maxv max_acc acc bits ret
       = Ret (Some (acc', bits', ret')) /\
     conv_inv (bits_fold frombits V data) (n + len data) acc' bits' ret').
Proof.
  induction data as [|value rest IH]; intros acc bits ret V n Inv.
  - right. split; [constructor|]. exists acc, bits, ret. split; [reflexivity|].
    change (len (@nil Z)) with 0. rewrite Z.add_0_r. exact Inv.
  - cbn [convert_loop]. unfold py_rshift, py_lshift.
    destruct (frombits <? 0) eqn:E0; bool_to_prop; [lia|]. cbn [bind].
    destruct (value <? 0) eqn:E1.
    { left. split; [reflexivity|]. intros F. inversion F as [|? ? Hv _]; subst.
      apply in_bits_accepted in Hv as [Hv _]. congruence. }
    destruct (Z.shiftr value frombits =? 0) eqn:E2; cbn [negb].
    2:{ left. split; [reflexivity|]. intros F. inversion F as [|? ? Hv _]; subst.
        apply in_bits_accepted in Hv as [_ Hv]. congruence. }
    assert (Hv : in_bits frombits value) by now apply accepted_value_in_bits.
    destruct Inv as (Hb & Hacc & Hret & Hrange & Hlen).
    unfold in_bits in Hv.
    destruct (while_emit_spec (Z.to_nat (bits + frombits))
                (Z.land (Z.lor (Z.shiftl acc frombits) value) max_acc)
                (bits + frombits) ret (Z.lor (Z.shiftl V frombits) value)
                (frombits * (n + 1)))
      as (bits' & ret' & W & Hb' & Hret' & Hrange' & Hlen'); try lia.
    + subst acc. unfold max_acc. prove_Zeq_bitwise.
    + rewrite Hret. prove_Zeq_bitwise.
    + assumption.
    + rewrite W. cbn [bind]. cbv beta iota.
      destruct (IH (Z.land (Z.lor (Z.shiftl acc frombits) value) max_acc) bits' ret'
                  (Z.lor (Z.shiftl V frombits) value) (n + 1)) as [[L NF]|[F R]].
      * repeat split; trivial; try lia.
        subst acc. unfold max_acc. prove_Zeq_bitwise.
      * left. split; [exact L|]. intros F. inversion F; subst. contradiction.
      * right. split; [constructor; assumption|].
        destruct R as (acc'' & bits'' & ret'' & R & Inv'). exists acc'', bits'', ret''.
        split; [exact R|].
        replace (n + len (value :: rest)) with (n + 1 + len rest)
          by (unfold len; simpl length; lia).
        exact Inv'.
Qed.

Lemma conv_inv_init : conv_inv 0 0 0 0 [].
Proof.
  unfold conv_inv. repeat split; try lia; try constructor.
  change (len (@nil Z)) with 0. lia.
Qed.

Lemma convertbits_unfold (data : list Z) (pad : bool) :
  convertbits data frombits tobits pad =
    st <- convert_loop data frombits tobits maxv max_acc 0 0 [] ;;
    match st with
    | None => Ret None
    | Some (acc, bits, ret) =>
        if pad then
          if negb (bits =? 0) then
            a <- py_lshift acc (tobits - bits) ;;
            Ret (Some (ret ++ [Z.land a maxv]))
          else Ret (Some ret)
        else if bits >=? frombits then Ret None
        else
          a <- py_lshift acc (tobits - bits) ;;
          if negb (Z.land a maxv =? 0) then Ret None else Ret (Some ret)
    end.
Proof.
  unfold convertbits, py_lshift at 1 2.
  destruct (tobits <? 0) eqn:E1; bool_to_prop; [lia|].
  destruct (frombits + tobits - 1 <? 0) eqn:E2; bool_to_prop; [lia|].
  cbn [bind]. rewrite !shiftl_1_pred by lia. reflexivity.
Qed.

(** With positive widths the converter always returns. *)
Lemma convertbits_returns (data : list Z) (pad : bool) :
  exists r, convertbits data frombits tobits pad = Ret r.
Proof.
  rewrite convertbits_unfold.
  destruct (convert_loop_spec data 0 0 [] 0 0 conv_inv_init)
    as [[L _]|[_ (acc & bits & ret & L & Inv)]]; rewrite L; cbn [bind].
  - now exists None.
  - destruct Inv as (Hb & _). unfold py_lshift.
    destruct (tobits - bits <? 0) eqn:E; bool_to_prop; [lia|]. cbn [bind].
    repeat match goal with
      | |- context [if ?b then _ else _] => destruct b
      end; eexists; reflexivity.
Qed.

(** Padded conversion of well-formed input: the output is the input bit
    string followed by [p] zero bits, [p] less than [tobits]. *)
Lemma convertbits_pad (data : list Z) :
  Forall (in_bits frombits) data ->
  exists ys p,
    convertbits data frombits tobits true = Ret (Some ys) /\
    0 <= p < tobits /\
    Forall (in_bits tobits) ys /\
    be_value tobits ys = Z.shiftl (be_value frombits data) p /\
    len ys * tobits = frombits * len data + p.
Proof.
  intros F. rewrite convertbits_unfold.
  destruct (convert_loop_spec data 0 0 [] 0 0 conv_inv_init)
    as [[_ NF]|[_ (acc & bits & ret & L & Inv)]]; [contradiction|].
  rewrite L. cbn [bind]. destruct Inv as (Hb & Hacc & Hret & Hrange & Hlen).
  fold (be_value frombits data) in *. rewrite Z.add_0_l in Hlen.
  destruct (bits =? 0) eqn:E; cbn [negb]; bool_to_prop.
  - exists ret, 0. subst bits. rewrite Z.shiftr_0_r in Hret. rewrite Z.shiftl_0_r.
    repeat split; trivial; lia.
  - unfold py_lshift. destruct (tobits - bits <? 0) eqn:E'; bool_to_prop; [lia|].
    cbn [bind]. exists (ret ++ [Z.land (Z.shiftl acc (tobits - bits)) maxv]), (tobits - bits).
    split; [reflexivity|]. split; [lia|]. split; [|split].
    + apply Forall_app. split; [assumption|]. constructor; [|constructor].
      apply in_bits_land_ones. lia.
    + unfold be_value in *. rewrite bits_fold_snoc, Hret. subst acc.
      unfold maxv, max_acc. prove_Zeq_bitwise.
    + rewrite len_app.
      change (len [Z.land (Z.shiftl acc (tobits - bits)) maxv]) with 1. lia.
Qed.

(** Strict conversion of well-formed input, in terms of the final state. *)
Lemma convertbits_strict (data : list Z) :
  Forall (in_bits frombits) data ->
  exists acc bits ret,
    conv_inv (be_value frombits data) (len data) acc bits ret /\
    convertbits data frombits tobits false =
      Ret (if (bits >=? frombits) || negb (Z.land (Z.shiftl acc (tobits - bits)) maxv =? 0)
           then None else Some ret).
Proof.
  intros F. rewrite convertbits_unfold.
  destruct (convert_loop_spec data 0 0 [] 0 0 conv_inv_init)
    as [[_ NF]|[_ (acc & bits & ret & L & Inv)]]; [contradiction|].
  rewrite L. cbn [bind]. exists acc, bits, ret.
  rewrite Z.add_0_l in Inv. split; [exact Inv|].
  destruct Inv as (Hb & _).
  destruct (bits >=? frombits); [reflexivity|]. cbn [orb].
  unfold py_lshift. destruct (tobits - bits <? 0) eqn:E'; bool_to_prop; [lia|].
  cbn [bind]. destruct (negb _); reflexivity.
Qed.

End Convertbits.

(** ** Bytes to five-bit symbols and back *)

Definition is_byte (b : Z) : Prop := 0 <= b <= 255.
Definition is_symbol (d : Z) : Prop := 0 <= d <= 31.

Lemma Forall_is_byte (l : list Z) : Forall is_byte l <-> Forall (in_bits 8) l.
Proof.
  split; apply Forall_impl; unfold is_byte, in_bits; change (2 ^ 8) with 256; lia.
Qed.

Lemma Forall_is_symbol (l : list Z) : Forall is_symbol l <-> Forall (in_bits 5) l.
Proof.
  split; apply Forall_impl; unfold is_symbol, in_bits; change (2 ^ 5) with 32; lia.
Qed.

(** The round trip, with the number [p] of padding bits the first
    conversion adds. *)
Lemma convertbits_roundtrip (bytes : list Z) :
  Forall is_byte bytes ->
  exists five p,
    convertbits bytes 8 5 true = Ret (Some five) /\
    Forall is_symbol five /\
    0 <= p <= 4 /\ 5 * len five = 8 * len bytes + p /\
    convertbits five 5 8 false = Ret (Some bytes).
Proof.
  intros B. apply Forall_is_byte in B.
  destruct (convertbits_pad 8 5 ltac:(lia) ltac:(lia) bytes B)
    as (five & p & C1 & Hp & F5 & V5 & L5).
  exists five, p. split; [exact C1|]. split; [now apply Forall_is_symbol|].
  split; [lia|]. split; [lia|].
  destruct (convertbits_strict 5 8 ltac:(lia) ltac:(lia) five F5)
    as (acc & bits & ret & (Hb & Hacc & Hret & Hrange & Hlen) & C2).
  rewrite C2. rewrite V5 in Hret, Hacc.
  assert (bits = p) by lia. subst bits.
  assert (Hn : length ret = length bytes) by (unfold len in *; lia).
  replace (Z.shiftr (Z.shiftl (be_value 8 bytes) p) p) with (be_value 8 bytes) in Hret
    by (symmetry; prove_Zeq_bitwise).
  unfold be_value in Hret.
  apply bits_fold_inj in Hret as [_ ->]; trivial; [|lia].
  destruct (p >=? 5) eqn:E; [rewrite Z.geb_leb in E; bool_to_prop; lia|].
  cbn [orb]. subst acc.
  match goal with
  | |- context [Z.land ?a (Z.ones 8) =? 0] =>
      replace (Z.land a (Z.ones 8)) with 0
        by (symmetry; generalize (be_value 8 bytes); intros; prove_Zeq_bitwise)
  end.
  reflexivity.
Qed.

(** C6: for every sequence of bytes, converting to five-bit symbols with
    padding and back without padding succeeds at both calls and gives the
    bytes back; the padding count [p] is between 0 and 4 and is the one that
    the input length determines. *)
Theorem convertbits_bytes_roundtrip (bytes : list Z) :
  Forall (fun b => 0 <= b <= 255) bytes ->
  exists five p,
    convertbits bytes 8 5 true = Ret (Some five) /\
    convertbits five 5 8 false = Ret (Some bytes) /\
    0 <= p <= 4 /\ 5 * len five = 8 * len bytes + p.
Proof.
  intros B. destruct (convertbits_roundtrip bytes B) as (five & p & C1 & _ & Hp & L & C2).
  exists five, p. repeat split; trivial; lia.
Qed.

Lemma convertbits_bytes_roundtrip_witness :
  exists five p,
    convertbits [255; 1; 2] 8 5 true = Ret (Some five) /\
    convertbits five 5 8 false = Ret (Some [255; 1; 2]) /\
    0 <= p <= 4 /\ 5 * len five = 8 * len [255; 1; 2] + p.
Proof.
  apply (convertbits_bytes_roundtrip [255; 1; 2]).
  repeat constructor; lia.
Defined.

(** ** The decode path always returns *)

Lemma decode_cases (hrp addr : str) :
  decode hrp addr = Ret (None, None) \/
  exists witver witprog, decode hrp addr = Ret (Some witver, Some witprog).
Proof.
  unfold decode. rewrite bech32_decode_spec.
  destruct (otherwise_valid addr && (1 <=? rfind addr one) && (rfind addr one <=? 83)).
  2:{ left. reflexivity. }
  cbn [opt_str_eqb]. destruct (str_eqb _ hrp); cbn [negb]; [|now left].
  set (data := drop_last6 _).
  destruct (convertbits_returns 5 8 ltac:(lia) ltac:(lia) (slice_from data 1) false)
    as [[decoded|] C]; rewrite C; cbn [bind]; [|now left].
  destruct ((len decoded <? 2) || (len decoded >? 40)) eqn:E; [now left|].
  destruct data as [|d0 rest] eqn:D.
  { unfold slice_from in C. simpl in C. vm_compute in C. injection C as <-.
    vm_compute in E. discriminate. }
  destruct (d0 >? 16); [now left|].
  destruct ((d0 =? 0) && _ && _); [now left|].
  right. now exists d0, decoded.
Qed.

(** C9: the decode path is total and raises nothing.  [bech32_decode]
    is a function that returns the sentinel or a pair of an HRP and data;
    [decode] returns (it neither raises nor loops) the sentinel or a pair of
    a version and a program, so neither its assertion on [data] nor the
    indexing [data[0]] fails. *)
Theorem decode_path_total (hrp addr : str) :
  (bech32_decode addr = (None, None) \/
   exists hrpgot data, bech32_decode addr = (Some hrpgot, Some data)) /\
  (decode hrp addr = Ret (None, None) \/
   exists witver witprog, decode hrp addr = Ret (Some witver, Some witprog)).
Proof.
  split; [|apply decode_cases].
  rewrite bech32_decode_spec.
  destruct (otherwise_valid addr && _ && _); [right|left]; eauto.
Qed.

(** ** The alphabet *)

Definition charset_char (d : Z) : char := nth (Z.to_nat d) CHARSET 0.

Lemma symbol_forall (P : Z -> bool) :
  forallb P (map Z.of_nat (seq 0 32)) = true -> forall d, is_symbol d -> P d = true.
Proof.
  intros H d Hd. rewrite forallb_forall in H. apply H.
  apply in_map_iff. exists (Z.to_nat d). unfold is_symbol in Hd.
  split; [lia|]. apply in_seq. lia.
Qed.

Lemma charset_at_symbol (d : Z) : is_symbol d -> charset_at d = Ret (charset_char d).
Proof.
  unfold is_symbol, charset_at. intros H.
  destruct ((0 <=? d) && (d <? 32)) eqn:E; [reflexivity|]. bool_to_prop. lia.
Qed.

Lemma find_charset_char (d : Z) : is_symbol d -> find CHARSET (charset_char d) = d.
Proof.
  intros H. apply Z.eqb_eq.
  apply (symbol_forall (fun d => find CHARSET (charset_char d) =? d)); [|exact H].
  vm_compute. reflexivity.
Qed.

Lemma charset_char_in (d : Z) : is_symbol d -> str_in (charset_char d) CHARSET = true.
Proof.
  apply (symbol_forall (fun d => str_in (charset_char d) CHARSET)).
  vm_compute. reflexivity.
Qed.

Lemma charset_char_lower (d : Z) :
  is_symbol d -> lower_char (charset_char d) = charset_char d.
Proof.
  intros H. apply Z.eqb_eq.
  apply (symbol_forall (fun d => lower_char (charset_char d) =? charset_char d));
    [|exact H].
  vm_compute. reflexivity.
Qed.

Lemma charset_char_in_range (d : Z) : is_symbol d -> in_range (charset_char d) = true.
Proof.
  apply (symbol_forall (fun d => in_range (charset_char d))).
  vm_compute. reflexivity.
Qed.

Lemma charset_char_not_one (d : Z) : is_symbol d -> (one =? charset_char d) = false.
Proof.
  intros H. apply Bool.negb_true_iff.
  apply (symbol_forall (fun d => negb (one =? charset_char d))); [|exact H].
  vm_compute. reflexivity.
Qed.

Lemma mapM_charset_at (l : list Z) :
  Forall is_symbol l -> mapM charset_at l = Ret (map charset_char l).
Proof.
  induction 1 as [|d l Hd _ IH]; simpl; [reflexivity|].
  now rewrite charset_at_symbol, IH.
Qed.

(** ** Encoding, then decoding *)

Lemma bech32_encode_symbols (hrp : str) (data : list Z) :
  Forall is_symbol data ->
  bech32_encode hrp data
    = Ret (hrp ++ one :: map charset_char (data ++ bech32_create_checksum hrp data)).
Proof.
  intros F. unfold bech32_encode. rewrite mapM_charset_at; [reflexivity|].
  apply Forall_app. split; [assumption|]. apply create_checksum_range.
Qed.

Definition valid_hrp (hrp : str) : Prop :=
  hrp <> [] /\ lower hrp = hrp /\ len hrp <= 83 /\ Forall (fun c => 33 <= c <= 126) hrp.

Lemma drop_last6_app {A : Type} (l c : list A) :
  length c = 6%nat -> drop_last6 (l ++ c) = l.
Proof.
  intros H. unfold drop_last6. rewrite length_app, H.
  replace (length l + 6 - 6)%nat with (length l + 0)%nat by lia.
  rewrite firstn_app_2. simpl. apply app_nil_r.
Qed.

(** What [bech32_encode] writes for a valid HRP, [bech32_decode] reads back. *)
Lemma bech32_decode_encode (hrp : str) (data : list Z) :
  valid_hrp hrp -> Forall is_symbol data ->
  bech32_decode (hrp ++ one :: map charset_char (data ++ bech32_create_checksum hrp data))
    = (Some hrp, Some data).
Proof.
  intros (Hne & Hlow & Hlen & Hrange) F.
  set (combined := data ++ bech32_create_checksum hrp data).
  assert (Fc : Forall is_symbol combined).
  { apply Forall_app. split; [assumption|]. apply create_checksum_range. }
  set (chars := map charset_char combined).
  assert (Lc : lower chars = chars).
  { unfold chars, lower. rewrite map_map. apply map_ext_in. intros d Hd.
    apply charset_char_lower. rewrite Forall_forall in Fc. now apply Fc. }
  assert (Ll : lower (hrp ++ one :: chars) = hrp ++ one :: chars).
  { unfold lower in *. rewrite map_app. simpl. now rewrite Hlow, Lc. }
  assert (N1 : existsb (Z.eqb one) chars = false).
  { unfold chars. clear Lc Ll.
    induction Fc as [|d l Hd _ IH]; cbn [map existsb]; [reflexivity|].
    now rewrite charset_char_not_one, IH. }
  assert (P : rfind (hrp ++ one :: chars) one = len hrp) by now apply rfind_app_sep.
  assert (Hpos : 1 <= len hrp).
  { destruct hrp; [contradiction|]. unfold len. simpl length. lia. }
  assert (Sf : slice_from (hrp ++ one :: chars) (len hrp + 1) = chars).
  { unfold slice_from, len. replace (Z.to_nat (Z.of_nat (length hrp) + 1))
      with (length hrp + 1)%nat by lia.
    rewrite skipn_app, skipn_all2 by lia.
    replace (length hrp + 1 - length hrp)%nat with 1%nat by lia. reflexivity. }
  assert (St : slice_to (hrp ++ one :: chars) (len hrp) = hrp).
  { unfold slice_to, len. rewrite Nat2Z.id, firstn_app, Nat.sub_diag, firstn_all.
    simpl. apply app_nil_r. }
  assert (Dp : data_part (hrp ++ one :: chars) (len hrp) = combined).
  { unfold data_part. rewrite Sf. unfold chars. rewrite map_map.
    rewrite <- (map_id combined) at 2. apply map_ext_in. intros d Hd.
    apply find_charset_char. rewrite Forall_forall in Fc. now apply Fc. }
  rewrite bech32_decode_spec. rewrite P, Ll, St, Dp.
  assert (V : otherwise_valid (hrp ++ one :: chars) = true).
  { unfold otherwise_valid. rewrite Ll, P, St, Dp, Sf.
    repeat (apply Bool.andb_true_iff; split).
    - apply forallb_in_range. apply Forall_app. split; [assumption|].
      constructor; [unfold one; lia|]. apply forallb_in_range.
      unfold chars. clear - Fc.
      induction Fc as [|d l Hd _ IH]; cbn [map forallb]; [reflexivity|].
      now rewrite charset_char_in_range, IH.
    - apply Bool.orb_true_iff. left. now apply str_eqb_eq.
    - apply Z.leb_le. unfold len, chars, combined.
      rewrite length_app. cbn [length].
      rewrite length_map, length_app, create_checksum_length. lia.
    - unfold chars. clear - Fc.
      induction Fc as [|d l Hd _ IH]; cbn [map forallb]; [reflexivity|].
      now rewrite charset_char_in, IH.
    - apply create_checksum_verifies. }
  rewrite V.
  destruct (1 <=? len hrp) eqn:E1, (len hrp <=? 83) eqn:E2; bool_to_prop; try lia.
  cbn [andb]. unfold combined. now rewrite drop_last6_app by apply create_checksum_length.
Qed.

Lemma zeros_are_symbols (k : nat) : Forall is_symbol (repeat 0 k).
Proof.
  apply Forall_forall. intros d Hd. apply repeat_spec in Hd. subst d.
  unfold is_symbol. lia.
Qed.

Lemma valid_hrp_a : valid_hrp (str_of "a").
Proof.
  unfold valid_hrp. repeat split; try discriminate; try reflexivity.
  repeat constructor; vm_compute; discriminate.
Qed.

(** C2, as amended: [bech32_decode] bounds the separator position by 83
    and asks for at least six characters after the separator: every input
    whose last ["1"] is at an index greater than 83, or is followed by fewer
    than six characters, gets the sentinel [(None, None)].  It puts no bound
    on the total length: for every [n] there is a string of at least [n]
    characters that it accepts. *)
Theorem bech32_decode_separator_bound :
  (forall bech,
     83 < rfind bech one \/ len bech < rfind bech one + 7 ->
     bech32_decode bech = (None, None)) /\
  (forall n, exists s hrp data,
     n <= len s /\ bech32_decode s = (Some hrp, Some data)).
Proof.
  split.
  - intros bech H. apply bech32_decode_pos_reject. lia.
  - intros n. set (data := repeat 0 (Z.to_nat n)).
    exists (str_of "a" ++ one :: map charset_char
              (data ++ bech32_create_checksum (str_of "a") data)),
      (str_of "a"), data.
    split.
    + unfold len. rewrite length_app. cbn [length].
      rewrite length_map, length_app. unfold data. rewrite repeat_length. lia.
    + apply bech32_decode_encode; [apply valid_hrp_a | apply zeros_are_symbols].
Qed.

Lemma bech32_decode_separator_bound_witness :
  (83 < rfind sep84_bech one /\ bech32_decode sep84_bech = (None, None)) /\
  (exists s hrp data, 1000 <= len s /\ bech32_decode s = (Some hrp, Some data)).
Proof.
  destruct bech32_decode_separator_bound as [A B]. split.
  - split; [vm_compute; reflexivity|].
    apply (A sep84_bech). left. vm_compute. reflexivity.
  - apply (B 1000).
Defined.

Definition valid_witness (witver : Z) (witprog : list Z) : Prop :=
  0 <= witver <= 16 /\ Forall is_byte witprog /\ 2 <= len witprog <= 40 /\
  (witver = 0 -> len witprog = 20 \/ len witprog = 32).

(** C1: for a valid HRP (non-empty, lowercase, at most 83 characters,
    code points in [33,126]), a version in [0,16] and a program of 2 to 40
    bytes (20 or 32 bytes for version 0), [encode] returns a string and
    [decode] with the same HRP returns the version and the program. *)
Theorem encode_decode_roundtrip (hrp : str) (witver : Z) (witprog : list Z) :
  valid_hrp hrp -> valid_witness witver witprog ->
  exists addr,
    encode hrp witver witprog = Ret (Some addr) /\
    decode hrp addr = Ret (Some witver, Some witprog).
Proof.
  intros Hh (Hv & Hb & Hl & H0).
  destruct (convertbits_roundtrip witprog Hb) as (five & p & C1 & F5 & _ & _ & C2).
  assert (Fd : Forall is_symbol (witver :: five)).
  { constructor; [unfold is_symbol; lia | assumption]. }
  set (addr := hrp ++ one :: map charset_char
                 ((witver :: five) ++ bech32_create_checksum hrp (witver :: five))).
  assert (D : decode hrp addr = Ret (Some witver, Some witprog)).
  { unfold decode, addr. rewrite bech32_decode_encode by assumption.
    cbn [opt_str_eqb]. rewrite (proj2 (str_eqb_eq hrp hrp) eq_refl). cbn [negb].
    change (slice_from (witver :: five) 1) with five. rewrite C2. cbn [bind].
    destruct ((len witprog <? 2) || (len witprog >? 40)) eqn:E1; [bool_to_prop; lia|].
    destruct (witver >? 16) eqn:E2; [bool_to_prop; lia|].
    destruct ((witver =? 0) && negb (len witprog =? 20) && negb (len witprog =? 32)) eqn:E3;
      [|reflexivity].
    apply Bool.andb_true_iff in E3 as [E3 E5]. apply Bool.andb_true_iff in E3 as [E3 E4].
    bool_to_prop. lia. }
  exists addr. split; [|exact D].
  unfold encode. rewrite C1. cbn [bind].
  rewrite bech32_encode_symbols by assumption. cbn [bind].
  fold addr. rewrite D. reflexivity.
Qed.

Lemma encode_decode_roundtrip_witness :
  exists addr,
    encode (str_of "bc") 0 (repeat 0 20) = Ret (Some addr) /\
    decode (str_of "bc") addr = Ret (Some 0, Some (repeat 0 20)).
Proof.
  apply (encode_decode_roundtrip (str_of "bc") 0 (repeat 0 20)).
  - unfold valid_hrp. repeat split; try discriminate; try reflexivity.
    repeat constructor; vm_compute; discriminate.
  - unfold valid_witness. repeat split; try discriminate.
    + repeat constructor; vm_compute; discriminate.
    + intros _. left. reflexivity.
Defined.

(** ** How a substitution changes the residue *)

Module Substitution.

Import Polymod.

(** [n] rounds on the value 0. *)
Definition zero_rounds (n : nat) (z : Z) : Z :=
  fold_left polymod_step (repeat 0 n) z.

Lemma zero_rounds_S (n : nat) (z : Z) :
  zero_rounds (S n) z = zero_rounds n (polymod_step z 0).
Proof. reflexivity. Qed.



Lemma lxor_lists_repeat0 (q : list Z) : lxor_lists (repeat 0 (length q)) q = q.
Proof. induction q as [|x q IH]; simpl; [reflexivity|]. now rewrite IH. Qed.

(** Two runs over the same values differ by the zero rounds of the
    difference of their start states. *)
Lemma fold_diff_suffix (q : list Z) (x y : Z) :
  Z.lxor (fold_left polymod_step q x) (fold_left polymod_step q y)
  = zero_rounds (length q) (Z.lxor x y).
Proof.
  assert (E : fold_left polymod_step q x
              = Z.lxor (zero_rounds (length q) (Z.lxor x y)) (fold_left polymod_step q y)).
  { unfold zero_rounds. rewrite <- polymod_fold_lxor by now rewrite repeat_length.
    rewrite lxor_lists_repeat0. f_equal. prove_Zeq_bitwise. }
  rewrite E. prove_Zeq_bitwise.
Qed.

Lemma step_diff (a a' v v' : Z) :
  Z.lxor (polymod_step a v) (polymod_step a' v')
  = Z.lxor (polymod_step (Z.lxor a a') 0) (Z.lxor v v').
Proof.
  rewrite <- polymod_step_lxor. rewrite (polymod_step_eq _ (Z.lxor v v')).
  rewrite (polymod_step_eq _ 0).
  generalize (gen_mix (Z.shiftr (Z.lxor a a') 25)). intros g. prove_Zeq_bitwise.
Qed.

Lemma step_diff_same (a v v' : Z) :
  Z.lxor (polymod_step a v) (polymod_step a v') = Z.lxor v v'.
Proof.
  rewrite step_diff, Z.lxor_nilpotent.
  rewrite (polymod_step_small 0) by (unfold in_bits; lia). reflexivity.
Qed.

Lemma gen_mix_low_bits (t : Z) :
  is_symbol t -> Z.land (gen_mix t) 31 = 0 -> t = 0.
Proof.
  intros Ht H. apply Z.eqb_eq in H.
  assert (C : (negb (Z.land (gen_mix t) 31 =? 0) || (t =? 0)) = true).
  { apply (symbol_forall (fun t => negb (Z.land (gen_mix t) 31 =? 0) || (t =? 0)));
      [vm_compute; reflexivity | exact Ht]. }
  rewrite H in C. simpl in C. now apply Z.eqb_eq.
Qed.

(** A zero round sends no other 30-bit state to 0. *)
Lemma step_zero_nonzero (z : Z) :
  in_bits 30 z -> z <> 0 -> polymod_step z 0 <> 0.
Proof.
  intros Hz Hne H0. apply Hne. unfold in_bits in Hz.
  rewrite polymod_step_eq in H0.
  assert (Ht : is_symbol (Z.shiftr z 25)).
  { unfold is_symbol. rewrite Z.shiftr_div_pow2 by lia.
    change (2 ^ 30) with (2 ^ 25 * 32) in Hz.
    pose proof (Z.div_le_mono 0 z (2 ^ 25) eq_refl (proj1 Hz)) as L. simpl in L.
    assert (z / 2 ^ 25 < 32) by (apply Z.div_lt_upper_bound; lia). split; [exact L | lia]. }
  assert (G : Z.land (gen_mix (Z.shiftr z 25)) 31 = 0).
  { apply (f_equal (fun w => Z.land w (Z.ones 5))) in H0.
    change (Z.land 0 (Z.ones 5)) with 0 in H0. rewrite <- H0.
    change 31 with (Z.ones 5). generalize (gen_mix (Z.shiftr z 25)). intros g.
    prove_Zeq_bitwise. }
  apply gen_mix_low_bits in G; [|exact Ht].
  rewrite G, gen_mix_0, !Z.lxor_0_r in H0.
  assert (L : Z.land z (Z.ones 25) = 0).
  { apply (f_equal (fun w => Z.shiftr w 5)) in H0. change (Z.shiftr 0 5) with 0 in H0.
    rewrite <- H0. prove_Zeq_bitwise. }
  replace z with (Z.lor (Z.shiftl (Z.shiftr z 25) 25) (Z.land z (Z.ones 25)))
    by prove_Zeq_bitwise.
  rewrite G, L. reflexivity.
Qed.

Lemma zero_rounds_in_bits (n : nat) (z : Z) : in_bits 30 z -> in_bits 30 (zero_rounds n z).
Proof.
  revert z. induction n as [|n IH]; intros z Hz; [exact Hz|].
  rewrite zero_rounds_S. apply IH. apply polymod_step_in_bits. unfold in_bits. lia.
Qed.

Lemma zero_rounds_nonzero (n : nat) (z : Z) :
  in_bits 30 z -> z <> 0 -> zero_rounds n z <> 0.
Proof.
  revert z. induction n as [|n IH]; intros z Hz Hne; [exact Hne|].
  rewrite zero_rounds_S. apply IH.
  - apply polymod_step_in_bits. unfold in_bits. lia.
  - now apply step_zero_nonzero.
Qed.










End Substitution.

(** ** Replacing one character *)


Lemma split_at_index {A : Type} (d : A) (s : list A) : forall i,
  (i < length s)%nat -> s = firstn i s ++ nth i s d :: skipn (S i) s.
Proof.
  induction s as [|x s IH]; intros i Hi; simpl in Hi; [lia|].
  destruct i as [|i]; [reflexivity|].
  cbn [firstn nth skipn app]. f_equal. apply IH. lia.
Qed.



(** Where [rfind] finds the needle, the needle is. *)
Lemma rfind_from_nth (s : str) (c : char) : forall i last,
  last < i ->
  rfind_from i s c last = last \/
  (i <= rfind_from i s c last /\ nth (Z.to_nat (rfind_from i s c last - i)) s 0 = c).
Proof.
  induction s as [|x s IH]; intros i last Hl; cbn [rfind_from]; [now left|].
  destruct (IH (i + 1) (if x =? c then i else last)) as [E|[E1 E2]].
  - destruct (x =? c); lia.
  - rewrite E. destruct (x =? c) eqn:Ex; [|now left].
    right. split; [lia|]. rewrite Z.sub_diag. apply Z.eqb_eq in Ex. exact Ex.
  - right. split; [lia|].
    replace (Z.to_nat (rfind_from (i + 1) s c (if x =? c then i else last) - i))
      with (S (Z.to_nat (rfind_from (i + 1) s c (if x =? c then i else last) - (i + 1))))
      by lia.
    exact E2.
Qed.

Lemma rfind_nth (s : str) (c : char) :
  0 <= rfind s c -> nth (Z.to_nat (rfind s c)) s 0 = c.
Proof.
  intros H. unfold rfind in *.
  destruct (rfind_from_nth s c 0 (-1)) as [E|[_ E]]; [lia|lia|].
  now rewrite Z.sub_0_r in E.
Qed.

Lemma find_from_nth (s : str) (c : char) : forall i,
  str_in c s = true -> nth (Z.to_nat (find_from i s c - i)) s 0 = c.
Proof.
  unfold str_in. induction s as [|x s IH]; intros i H; cbn [existsb find_from] in *;
    [discriminate|].
  rewrite Z.eqb_sym in H. destruct (x =? c) eqn:Ex.
  - rewrite Z.sub_diag. now apply Z.eqb_eq in Ex.
  - cbn [orb] in H. pose proof (find_from_range s c (i + 1) H) as R.
    replace (Z.to_nat (find_from (i + 1) s c - i))
      with (S (Z.to_nat (find_from (i + 1) s c - (i + 1)))) by lia.
    now apply IH.
Qed.


Lemma lower_replace_parts (l1 l2 : str) (y : char) :
  lower (l1 ++ y :: l2) = lower l1 ++ lower_char y :: lower l2.
Proof. unfold lower. now rewrite map_app. Qed.

Lemma verify_residue (hrp : str) (data : list Z) :
  bech32_verify_checksum hrp data = true ->
  bech32_polymod (bech32_hrp_expand hrp ++ data) = 1.
Proof. unfold bech32_verify_checksum. apply Z.eqb_eq. Qed.

(** ** Single-character substitutions *)

Section Detection.

Import Substitution.



End Detection.

(** * Further properties of the codec *)

(** ** Letter case *)

Definition is_upper (c : char) : bool := (65 <=? c) && (c <=? 90).
Definition is_lower (c : char) : bool := (97 <=? c) && (c <=? 122).

Lemma lower_changes_upper (s : str) :
  existsb is_upper s = true -> str_eqb (lower s) s = false.
Proof.
  intros H. apply str_eqb_neq. intros E. revert H.
  induction s as [|x s IH]; cbn [existsb]; [discriminate|].
  cbn [lower map] in E. injection E as Ex Es.
  destruct (is_upper x) eqn:U; cbn [orb].
  - intros _. unfold is_upper in U. unfold lower_char in Ex. rewrite U in Ex. lia.
  - now apply IH.
Qed.

Lemma upper_changes_lower (s : str) :
  existsb is_lower s = true -> str_eqb (upper s) s = false.
Proof.
  intros H. apply str_eqb_neq. intros E. revert H.
  induction s as [|x s IH]; cbn [existsb]; [discriminate|].
  cbn [upper map] in E. injection E as Ex Es.
  destruct (is_lower x) eqn:U; cbn [orb].
  - intros _. unfold is_lower in U. unfold upper_char in Ex. rewrite U in Ex. lia.
  - now apply IH.
Qed.

(** X1: a string that holds both an uppercase and a lowercase letter is
    refused, whatever else it holds. *)
Theorem mixed_case_rejected (s : str) :
  existsb is_upper s = true -> existsb is_lower s = true ->
  bech32_decode s = (None, None).
Proof.
  intros U L. unfold bech32_decode.
  rewrite (lower_changes_upper s U), (upper_changes_lower s L).
  destruct (existsb (fun x => (ord x <? 33) || (ord x >? 126)) s); reflexivity.
Qed.

Lemma mixed_case_rejected_witness :
  bech32_decode (str_of "A12uEL5L") = (None, None).
Proof.
  apply (mixed_case_rejected (str_of "A12uEL5L")); vm_compute; reflexivity.
Defined.

Lemma lower_upper_char (c : char) : lower_char (upper_char c) = lower_char c.
Proof.
  unfold lower_char, upper_char.
  destruct ((97 <=? c) && (c <=? 122)) eqn:E1;
    destruct ((65 <=? c) && (c <=? 90)) eqn:E2;
    try destruct ((65 <=? c - 32) && (c - 32 <=? 90)) eqn:E3;
    bool_to_prop; lia.
Qed.

Lemma upper_char_idem (c : char) : upper_char (upper_char c) = upper_char c.
Proof.
  unfold upper_char.
  destruct ((97 <=? c) && (c <=? 122)) eqn:E; [|now rewrite E].
  destruct ((97 <=? c - 32) && (c - 32 <=? 122)) eqn:E'; [|reflexivity].
  bool_to_prop. lia.
Qed.

Lemma upper_char_range (c : char) : 33 <= c <= 126 -> 33 <= upper_char c <= 126.
Proof.
  unfold upper_char. destruct ((97 <=? c) && (c <=? 122)) eqn:E; [|lia].
  bool_to_prop. lia.
Qed.

Lemma lower_upper (s : str) : lower (upper s) = lower s.
Proof. unfold lower, upper. rewrite map_map. apply map_ext. apply lower_upper_char. Qed.

Lemma upper_idem (s : str) : upper (upper s) = upper s.
Proof. unfold upper. rewrite map_map. apply map_ext. apply upper_char_idem. Qed.

(** The result of [bech32_decode] depends on the lowercased string only,
    once the range and case checks have passed. *)
Lemma bech32_decode_same_lower (s t : str) :
  lower t = lower s ->
  forallb in_range t = true ->
  str_eqb (lower t) t || str_eqb (upper t) t = true ->
  otherwise_valid s = true ->
  bech32_decode t = bech32_decode s.
Proof.
  intros E Rt Ct V. rewrite !bech32_decode_spec.
  assert (P : rfind t one = rfind s one) by now rewrite <- rfind_lower, E, rfind_lower.
  rewrite P, E, V.
  replace (otherwise_valid t) with true; [reflexivity|].
  symmetry. unfold otherwise_valid in *. rewrite Rt, Ct, E. cbn [andb].
  apply Bool.andb_true_iff in V as [V V5]. apply Bool.andb_true_iff in V as [V V4].
  apply Bool.andb_true_iff in V as [_ V3]. now rewrite V3, V4, V5.
Qed.

(** X2: decoding does not depend on the case of an accepted string: its
    lowercase and its uppercase form decode to the same HRP and data. *)
Theorem bech32_decode_case_insensitive (s hrp : str) (data : list Z) :
  bech32_decode s = (Some hrp, Some data) ->
  bech32_decode (lower s) = (Some hrp, Some data) /\
  bech32_decode (upper s) = (Some hrp, Some data).
Proof.
  intros D. pose proof D as D'.
  apply bech32_decode_success in D' as (V & _).
  pose proof (otherwise_valid_parts s V) as (R & _).
  rewrite <- D. split; apply bech32_decode_same_lower; trivial.
  - apply lower_idem.
  - apply forallb_in_range. unfold lower. apply Forall_map.
    revert R. apply Forall_impl. intros c. apply lower_char_range.
  - rewrite lower_idem. rewrite (proj2 (str_eqb_eq _ _) eq_refl). reflexivity.
  - apply lower_upper.
  - apply forallb_in_range. unfold upper. apply Forall_map.
    revert R. apply Forall_impl. intros c. apply upper_char_range.
  - rewrite upper_idem. rewrite (proj2 (str_eqb_eq (upper s) _) eq_refl).
    apply Bool.orb_true_r.
Qed.

Lemma bech32_decode_case_insensitive_witness :
  bech32_decode (lower (str_of "A12UEL5L")) = (Some (str_of "a"), Some []) /\
  bech32_decode (upper (str_of "A12UEL5L")) = (Some (str_of "a"), Some []).
Proof.
  apply (bech32_decode_case_insensitive (str_of "A12UEL5L")).
  vm_compute. reflexivity.
Defined.

(** ** Single-character substitutions, case flips included *)








Lemma letter_cases_exclusive (x : char) : is_upper x = true -> is_lower x = false.
Proof.
  unfold is_upper, is_lower. intros H.
  destruct ((97 <=? x) && (x <=? 122)) eqn:E; [|reflexivity]. bool_to_prop. lia.
Qed.





(** ** More on the bit converter *)

Lemma convertbits_some_in_bits (frombits tobits : Z) (data r : list Z) (pad : bool) :
  0 < frombits -> 0 < tobits ->
  convertbits data frombits tobits pad = Ret (Some r) ->
  Forall (in_bits frombits) data.
Proof.
  intros Hf Ht H. rewrite convertbits_unfold in H by assumption.
  destruct (convert_loop_spec frombits tobits Hf Ht data 0 0 [] 0 0
              (conv_inv_init frombits tobits Ht)) as [[L _]|[F _]].
  - rewrite L in H. discriminate.
  - exact F.
Qed.

(** X3: with positive widths, the padded conversion fails exactly on an
    input that holds a negative value or a value of more than [frombits]
    bits; on any other input it returns the least number of [tobits]-bit
    values that hold all the input bits. *)
Theorem convertbits_padded_result (frombits tobits : Z) (data : list Z) :
  0 < frombits -> 0 < tobits ->
  (~ Forall (fun v => 0 <= v < 2 ^ frombits) data /\
   convertbits data frombits tobits true = Ret None) \/
  (Forall (fun v => 0 <= v < 2 ^ frombits) data /\
   exists ys p,
     convertbits data frombits tobits true = Ret (Some ys) /\
     Forall (fun v => 0 <= v < 2 ^ tobits) ys /\
     0 <= p < tobits /\ len ys * tobits = frombits * len data + p).
Proof.
  intros Hf Ht.
  destruct (convert_loop_spec frombits tobits Hf Ht data 0 0 [] 0 0
              (conv_inv_init frombits tobits Ht)) as [[L NF]|[F _]].
  - left. split; [exact NF|]. rewrite convertbits_unfold by assumption.
    now rewrite L.
  - right. split; [exact F|].
    destruct (convertbits_pad frombits tobits Hf Ht data F) as (ys & p & C & Hp & Fy & _ & Hl).
    exists ys, p. repeat split; trivial; lia.
Qed.

Lemma convertbits_padded_result_witness :
  (~ Forall (fun v => 0 <= v < 2 ^ 8) [255; 256] /\
   convertbits [255; 256] 8 5 true = Ret None) \/
  (Forall (fun v => 0 <= v < 2 ^ 8) [255; 256] /\
   exists ys p,
     convertbits [255; 256] 8 5 true = Ret (Some ys) /\
     Forall (fun v => 0 <= v < 2 ^ 5) ys /\
     0 <= p < 5 /\ len ys * 5 = 8 * len [255; 256] + p).
Proof. apply (convertbits_padded_result 8 5 [255; 256]); lia. Defined.

Lemma strict_conversion_inverse (data bytes : list Z) :
  convertbits data 5 8 false = Ret (Some bytes) ->
  Forall is_symbol data /\ Forall is_byte bytes /\
  convertbits bytes 8 5 true = Ret (Some data).
Proof.
  intros H.
  assert (F : Forall (in_bits 5) data).
  { apply (convertbits_some_in_bits 5 8 data bytes false); [lia | lia | exact H]. }
  destruct (convertbits_strict 5 8 ltac:(lia) ltac:(lia) data F)
    as (acc & bits & ret & (Hb & Hacc & Hret & Hrange & Hlen) & C).
  rewrite C in H.
  destruct (bits >=? 5) eqn:E1; [discriminate|]. cbn [orb] in H.
  destruct (Z.land (Z.shiftl acc (8 - bits)) (Z.ones 8) =? 0) eqn:E2; [|discriminate].
  cbn [negb] in H. injection H as ->.
  rewrite Z.geb_leb in E1. bool_to_prop.
  split; [now apply Forall_is_symbol|]. split; [now apply Forall_is_byte|].
  destruct (convertbits_pad 8 5 ltac:(lia) ltac:(lia) bytes Hrange)
    as (ys & p & C1 & Hp & Fy & Vy & Ly).
  rewrite C1. do 2 f_equal.
  assert (p = bits) by lia. subst p.
  assert (Hn : length ys = length data) by (unfold len in *; lia).
  assert (Low : Z.land (be_value 5 data) (Z.ones bits) = 0).
  { replace (Z.land (be_value 5 data) (Z.ones bits))
      with (Z.shiftr (Z.land (Z.shiftl acc (8 - bits)) (Z.ones 8)) (8 - bits)).
    - rewrite E2. apply Z.shiftr_0_l.
    - subst acc. generalize (be_value 5 data). intros V. prove_Zeq_bitwise. }
  assert (EV : be_value 5 ys = be_value 5 data).
  { rewrite Vy, Hret.
    rewrite <- (Z.lor_0_r (Z.shiftl (Z.shiftr (be_value 5 data) bits) bits)), <- Low.
    generalize (be_value 5 data). intros V. prove_Zeq_bitwise. }
  unfold be_value in EV. apply bits_fold_inj in EV as [_ ->]; trivial. lia.
Qed.

(** X4: the strict conversion from five to eight bits accepts canonical
    input only: when it returns bytes, the padded conversion of these bytes
    gives the input back, so no two inputs decode to the same bytes. *)
Theorem convertbits_strict_canonical (data bytes : list Z) :
  convertbits data 5 8 false = Ret (Some bytes) ->
  Forall (fun d => 0 <= d <= 31) data /\ Forall (fun b => 0 <= b <= 255) bytes /\
  convertbits bytes 8 5 true = Ret (Some data).
Proof. apply strict_conversion_inverse. Qed.

Lemma convertbits_strict_canonical_witness :
  Forall is_symbol [31; 28; 0; 16; 4] /\ Forall is_byte [255; 1; 2] /\
  convertbits [255; 1; 2] 8 5 true = Ret (Some [31; 28; 0; 16; 4]).
Proof.
  apply (convertbits_strict_canonical [31; 28; 0; 16; 4] [255; 1; 2]).
  vm_compute. reflexivity.
Defined.

(** ** What [decode] returns *)

Lemma bech32_decode_data_range (bech hrp : str) (data : list Z) :
  bech32_decode bech = (Some hrp, Some data) -> Forall is_symbol data.
Proof.
  intros H. apply bech32_decode_success in H as (V & _ & _ & ->).
  apply otherwise_valid_parts in V as (_ & _ & _ & Cs & _).
  apply Forall_drop_last6. now apply data_part_range.
Qed.

(** Success of [decode], read off its checks. *)
Lemma decode_success_inv (hrp addr : str) (v : Z) (p : list Z) :
  decode hrp addr = Ret (Some v, Some p) ->
  exists rest,
    bech32_decode addr = (Some hrp, Some (v :: rest)) /\
    convertbits rest 5 8 false = Ret (Some p) /\
    2 <= len p <= 40 /\ v <= 16 /\ (v = 0 -> len p = 20 \/ len p = 32).
Proof.
  intros H. pose proof (decode_success_hrp hrp addr v p H) as Hh.
  unfold decode in H. destruct (bech32_decode addr) as [hrpgot data] eqn:D.
  cbn [fst] in Hh. subst hrpgot. cbn [opt_str_eqb] in H.
  rewrite (proj2 (str_eqb_eq hrp hrp) eq_refl) in H. cbn [negb] in H.
  destruct data as [data|]; [|discriminate].
  destruct (convertbits (slice_from data 1) 5 8 false) as [[decoded|]| |] eqn:C;
    cbn [bind] in H; try discriminate.
  destruct ((len decoded <? 2) || (len decoded >? 40)) eqn:E1; [discriminate|].
  destruct data as [|d0 rest]; [discriminate|].
  destruct (d0 >? 16) eqn:E2; [discriminate|].
  destruct ((d0 =? 0) && negb (len decoded =? 20) && negb (len decoded =? 32)) eqn:E3;
    [discriminate|].
  injection H as -> ->. exists rest. split; [reflexivity|].
  split; [exact C|]. bool_to_prop. split; [lia|]. split; [lia|].
  intros ->. destruct E3 as [[E3|E3]|E3]; bool_to_prop; try lia; auto.
Qed.

Lemma decode_success_intro (hrp addr : str) (v : Z) (rest p : list Z) :
  bech32_decode addr = (Some hrp, Some (v :: rest)) ->
  convertbits rest 5 8 false = Ret (Some p) ->
  2 <= len p <= 40 -> v <= 16 -> (v = 0 -> len p = 20 \/ len p = 32) ->
  decode hrp addr = Ret (Some v, Some p).
Proof.
  intros D C Hl Hv H0. unfold decode. rewrite D. cbn [opt_str_eqb].
  rewrite (proj2 (str_eqb_eq hrp hrp) eq_refl). cbn [negb].
  change (slice_from (v :: rest) 1) with rest. rewrite C. cbn [bind].
  destruct ((len p <? 2) || (len p >? 40)) eqn:E1; [bool_to_prop; lia|].
  destruct (v >? 16) eqn:E2; [bool_to_prop; lia|].
  destruct ((v =? 0) && negb (len p =? 20) && negb (len p =? 32)) eqn:E3; [|reflexivity].
  apply Bool.andb_true_iff in E3 as [E3 E5]. apply Bool.andb_true_iff in E3 as [E3 E4].
  bool_to_prop. lia.
Qed.

(** X5: whatever [decode] accepts is a well-formed witness: the version
    is in [0,16], the program has 2 to 40 bytes, each in [0,255], and a
    version-0 program has 20 or 32 bytes (so one of 21 bytes is refused). *)
Theorem decode_output_invariant (hrp addr : str) (witver : Z) (witprog : list Z) :
  decode hrp addr = Ret (Some witver, Some witprog) ->
  0 <= witver <= 16 /\
  Forall (fun b => 0 <= b <= 255) witprog /\
  2 <= len witprog <= 40 /\
  (witver = 0 -> len witprog = 20 \/ len witprog = 32).
Proof.
  intros H. apply decode_success_inv in H as (rest & D & C & Hl & Hv & H0).
  apply bech32_decode_data_range in D. inversion D as [|? ? Hw _]; subst.
  apply strict_conversion_inverse in C as (_ & Fb & _).
  unfold is_symbol in Hw. repeat split; trivial; lia.
Qed.

Lemma decode_output_invariant_witness :
  0 <= 0 <= 16 /\
  Forall (fun b => 0 <= b <= 255) (repeat 0 20) /\
  2 <= len (repeat 0 20) <= 40 /\
  (0 = 0 -> len (repeat 0 20) = 20 \/ len (repeat 0 20) = 32).
Proof.
  apply (decode_output_invariant (str_of "bc") bc_zero_address 0 (repeat 0 20)).
  vm_compute. reflexivity.
Defined.

(** ** The checksum of a valid string is the created one *)

Section ChecksumUnique.

Import Polymod.

(** Six symbols are cut back out of the state they build. *)
Lemma checksum_symbols_unpack (c : list Z) :
  length c = 6%nat -> Forall is_symbol c ->
  checksum_symbols (fold_left polymod_step c 0) = c.
Proof.
  intros H F. do 6 (destruct c as [|? c]; [discriminate|]).
  destruct c; [|discriminate]. clear H. apply Forall_is_symbol in F.
  repeat match goal with
    | H : Forall _ (_ :: _) |- _ => inversion H; subst; clear H
    end.
  unfold in_bits in *. cbn [fold_left].
  rewrite (polymod_step_small 0) by (unfold in_bits; lia).
  rewrite Z.shiftl_0_l, Z.lxor_0_l.
  repeat match goal with
    | |- context [polymod_step ?d ?v] =>
        lazymatch d with
        | context [polymod_step] => fail
        | _ => rewrite (polymod_step_small d v)
                 by (apply in_bits_land; [lia | prove_Zeq_bitwise])
        end
    end.
  unfold checksum_symbols. cbn [map seq Z.of_nat Pos.of_succ_nat Pos.succ].
  change (5 * (5 - 0)) with 25. change (5 * (5 - 1)) with 20.
  change (5 * (5 - 2)) with 15. change (5 * (5 - 3)) with 10.
  change (5 * (5 - 4)) with 5. change (5 * (5 - 5)) with 0.
  change 31 with (Z.ones 5).
  do 6 (apply f_equal2; [prove_Zeq_bitwise|]). reflexivity.
Qed.

Lemma checksum_unique (hrp : str) (data c : list Z) :
  length c = 6%nat -> Forall is_symbol c ->
  bech32_verify_checksum hrp (data ++ c) = true ->
  c = bech32_create_checksum hrp data.
Proof.
  intros Hl F V. apply verify_residue in V.
  unfold bech32_polymod in V. rewrite app_assoc, fold_left_app in V.
  set (s := fold_left polymod_step (bech32_hrp_expand hrp ++ data) 1) in *.
  rewrite <- (lxor_lists_zeros c Hl) in V. rewrite <- (Z.lxor_0_r s) in V.
  rewrite polymod_fold_lxor in V by (now rewrite Hl).
  assert (E : fold_left polymod_step c 0
              = Z.lxor (fold_left polymod_step [0; 0; 0; 0; 0; 0] s) 1).
  { revert V. generalize (fold_left polymod_step [0; 0; 0; 0; 0; 0] s).
    generalize (fold_left polymod_step c 0). intros y z V.
    rewrite <- V. prove_Zeq_bitwise. }
  rewrite <- (checksum_symbols_unpack c Hl F), E.
  unfold bech32_create_checksum, bech32_polymod. rewrite fold_left_app. reflexivity.
Qed.

End ChecksumUnique.

Lemma charset_char_find (x : char) :
  str_in x CHARSET = true -> charset_char (find CHARSET x) = x.
Proof.
  intros H. unfold charset_char, find.
  rewrite <- (Z.sub_0_r (find_from 0 CHARSET x)). now apply find_from_nth.
Qed.

Lemma len_ge_length {A : Type} (l : list A) (n : nat) :
  Z.of_nat n <= len l -> (n <= length l)%nat.
Proof. unfold len. lia. Qed.

(** An accepted string, rebuilt from what [bech32_decode] returns. *)
Lemma bech32_encode_of_decode (s hrp : str) (data : list Z) :
  bech32_decode s = (Some hrp, Some data) ->
  bech32_encode hrp data = Ret (lower s).
Proof.
  intros D. pose proof (bech32_decode_data_range s hrp data D) as Fd.
  apply bech32_decode_success in D as (V & P & Hh & Hd).
  apply otherwise_valid_parts in V as (_ & _ & L & Cs & Vf).
  set (b := lower s) in *. set (pos := rfind s one) in *.
  set (full := data_part b pos) in *.
  assert (Ff : Forall is_symbol full) by now apply data_part_range.
  assert (Lf : len full = len s - (pos + 1)).
  { unfold full, data_part. rewrite len_map, len_slice_from; unfold b;
      rewrite len_lower; lia. }
  assert (Sp : full = data ++ skipn (length full - 6) full).
  { rewrite Hd. unfold drop_last6. symmetry. apply firstn_skipn. }
  set (c := skipn (length full - 6) full) in *.
  assert (Hc : length c = 6%nat).
  { unfold c. rewrite length_skipn. unfold len in Lf, L. lia. }
  assert (Fc : Forall is_symbol c).
  { rewrite Sp in Ff. now apply Forall_app in Ff. }
  rewrite Sp in Vf. rewrite <- Hh in Vf.
  apply checksum_unique in Vf; trivial.
  rewrite bech32_encode_symbols by assumption. rewrite <- Vf, <- Sp.
  f_equal.
  assert (Mc : map charset_char full = slice_from b (pos + 1)).
  { unfold full, data_part. rewrite map_map. rewrite <- (map_id (slice_from b (pos + 1))) at 2.
    apply map_ext_in. intros x Hx. apply charset_char_find.
    rewrite forallb_forall in Cs. now apply Cs. }
  rewrite Mc, Hh.
  assert (N : nth (Z.to_nat pos) b 0 = one).
  { unfold b, pos. rewrite <- (rfind_lower s). apply rfind_nth. rewrite rfind_lower.
    fold pos. lia. }
  unfold slice_to, slice_from.
  replace (Z.to_nat (pos + 1)) with (S (Z.to_nat pos)) by lia.
  rewrite <- N. symmetry. apply split_at_index.
  unfold b, lower. rewrite length_map. unfold len in L. lia.
Qed.

(** X6: re-encoding what [bech32_decode] returns gives the lowercase form
    of the string that was decoded; the HRP and the data determine the
    string, checksum included. *)
Theorem bech32_encode_inverts_decode (s hrp : str) (data : list Z) :
  bech32_decode s = (Some hrp, Some data) ->
  bech32_encode hrp data = Ret (lower s).
Proof. apply bech32_encode_of_decode. Qed.

Lemma bech32_encode_inverts_decode_witness :
  bech32_encode (str_of "a") [] = Ret (lower (str_of "A12UEL5L")).
Proof.
  apply (bech32_encode_inverts_decode (str_of "A12UEL5L")).
  vm_compute. reflexivity.
Defined.

Lemma bech32_decode_lower (s hrp : str) (data : list Z) :
  bech32_decode s = (Some hrp, Some data) ->
  bech32_decode (lower s) = (Some hrp, Some data).
Proof.
  intros D. pose proof D as D'.
  apply bech32_decode_success in D' as (V & _).
  pose proof (otherwise_valid_parts s V) as (R & _).
  rewrite <- D. apply bech32_decode_same_lower; trivial.
  - apply lower_idem.
  - apply forallb_in_range. unfold lower. apply Forall_map.
    revert R. apply Forall_impl. intros c. apply lower_char_range.
  - rewrite lower_idem. rewrite (proj2 (str_eqb_eq _ _) eq_refl). reflexivity.
Qed.

Lemma decode_same_bech32 (hrp a1 a2 : str) :
  bech32_decode a1 = bech32_decode a2 -> decode hrp a1 = decode hrp a2.
Proof. intros E. unfold decode. now rewrite E. Qed.

(** X7: [encode] inverts [decode]: when [decode(hrp, addr)] returns a
    version and a program, [encode] on them returns the lowercase form of
    [addr]. *)
Theorem encode_inverts_decode (hrp addr : str) (witver : Z) (witprog : list Z) :
  decode hrp addr = Ret (Some witver, Some witprog) ->
  encode hrp witver witprog = Ret (Some (lower addr)).
Proof.
  intros H. pose proof H as H'.
  apply decode_success_inv in H' as (rest & D & C & _).
  apply strict_conversion_inverse in C as (_ & _ & C).
  unfold encode. rewrite C. cbn [bind].
  rewrite (bech32_encode_of_decode addr hrp (witver :: rest) D). cbn [bind].
  rewrite (decode_same_bech32 hrp (lower addr) addr).
  - rewrite H. reflexivity.
  - rewrite D. now apply bech32_decode_lower.
Qed.

Lemma encode_inverts_decode_witness :
  encode (str_of "bc") 0
    [117; 30; 118; 232; 25; 145; 150; 212; 84; 148; 28; 69; 209; 179; 163; 35; 241; 67; 59; 214]
  = Ret (Some (lower (str_of "BC1QW508D6QEJXTDG4Y5R3ZARVARY0C5XW7KV8F3T4"))).
Proof.
  apply (encode_inverts_decode (str_of "bc")
           (str_of "BC1QW508D6QEJXTDG4Y5R3ZARVARY0C5XW7KV8F3T4")).
  vm_compute. reflexivity.
Defined.

(** ** When [encode] returns a string *)

Lemma convertbits_bytes_cases (p : list Z) :
  (~ Forall is_byte p /\ convertbits p 8 5 true = Ret None) \/
  (Forall is_byte p /\
   exists five,
     convertbits p 8 5 true = Ret (Some five) /\ Forall is_symbol five /\
     convertbits five 5 8 false = Ret (Some p)).
Proof.
  destruct (convert_loop_spec 8 5 ltac:(lia) ltac:(lia) p 0 0 [] 0 0
              (conv_inv_init 8 5 ltac:(lia))) as [[L NF]|[F _]].
  - left. rewrite Forall_is_byte. split; [exact NF|].
    rewrite convertbits_unfold by lia. now rewrite L.
  - right. apply Forall_is_byte in F. split; [exact F|].
    destruct (convertbits_roundtrip p F) as (five & q & C1 & F5 & _ & _ & C2).
    now exists five.
Qed.

(** The index that [CHARSET[d]] reads for [d] in -32..31. *)
Definition wrap_index (d : Z) : Z := if d <? 0 then d + 32 else d.

Lemma charset_at_cases (d : Z) :
  (-32 <= d <= 31 /\ is_symbol (wrap_index d) /\
   charset_at d = Ret (charset_char (wrap_index d))) \/
  ((d < -32 \/ 31 < d) /\ charset_at d = Raise IndexError).
Proof.
  unfold charset_at, wrap_index, charset_char, is_symbol.
  destruct ((0 <=? d) && (d <? 32)) eqn:E1.
  - left. bool_to_prop. destruct (d <? 0) eqn:E; bool_to_prop; [lia|].
    repeat split; lia.
  - destruct ((-32 <=? d) && (d <? 0)) eqn:E2.
    + left. bool_to_prop. destruct (d <? 0) eqn:E; bool_to_prop; [|lia].
      repeat split; lia.
    + right. split; [|reflexivity]. bool_to_prop. lia.
Qed.

Lemma chars_no_one (l : list Z) :
  Forall is_symbol l -> existsb (Z.eqb one) (map charset_char l) = false.
Proof.
  induction 1 as [|d l Hd _ IH]; cbn [map existsb]; [reflexivity|].
  now rewrite charset_char_not_one, IH.
Qed.

Lemma chars_lower (l : list Z) :
  Forall is_symbol l -> lower (map charset_char l) = map charset_char l.
Proof.
  intros F. unfold lower. rewrite map_map. apply map_ext_in. intros d Hd.
  apply charset_char_lower. rewrite Forall_forall in F. now apply F.
Qed.

Lemma find_chars (l : list Z) :
  Forall is_symbol l -> map (fun x => find CHARSET x) (map charset_char l) = l.
Proof.
  intros F. rewrite map_map. rewrite <- (map_id l) at 2. apply map_ext_in.
  intros d Hd. apply find_charset_char. rewrite Forall_forall in F. now apply F.
Qed.

Lemma slice_from_sep (h chars : str) :
  slice_from (h ++ one :: chars) (len h + 1) = chars.
Proof.
  unfold slice_from, len.
  replace (Z.to_nat (Z.of_nat (length h) + 1)) with (length h + 1)%nat by lia.
  rewrite skipn_app, skipn_all2 by lia.
  replace (length h + 1 - length h)%nat with 1%nat by lia. reflexivity.
Qed.

Lemma slice_to_sep (h chars : str) : slice_to (h ++ one :: chars) (len h) = h.
Proof.
  unfold slice_to, len. rewrite Nat2Z.id, firstn_app, Nat.sub_diag, firstn_all.
  simpl. apply app_nil_r.
Qed.

(** What an accepted string of the form HRP, ["1"], alphabet characters
    decodes to, for any HRP. *)
Lemma bech32_decode_of_encoded (hrp h : str) (full d : list Z) :
  Forall is_symbol full ->
  bech32_decode (hrp ++ one :: map charset_char full) = (Some h, Some d) ->
  h = lower hrp /\ d = drop_last6 full /\
  bech32_verify_checksum (lower hrp) full = true /\
  hrp <> [] /\ len hrp <= 83 /\ Forall (fun c => 33 <= c <= 126) hrp.
Proof.
  intros F D. set (chars := map charset_char full) in *.
  assert (P : rfind (hrp ++ one :: chars) one = len hrp).
  { apply rfind_app_sep. now apply chars_no_one. }
  assert (Ll : lower (hrp ++ one :: chars) = lower hrp ++ one :: chars).
  { rewrite lower_replace_parts. unfold chars. now rewrite chars_lower. }
  apply bech32_decode_success in D as (V & Hp & Hh & Hd).
  apply otherwise_valid_parts in V as (R & _ & _ & _ & Vf).
  rewrite P, Ll in *. rewrite <- (len_lower hrp) in Hh, Hd, Vf.
  unfold data_part in *. rewrite slice_from_sep in *. rewrite slice_to_sep in *.
  unfold chars in *. rewrite find_chars in * by assumption.
  apply Forall_app in R as [R _].
  repeat split; trivial; try lia.
  intros E. subst hrp. change (len (@nil char)) with 0 in Hp. lia.
Qed.

Lemma wrapped_lxor (v : Z) : -32 <= v < 0 -> Z.lxor (v + 32) v = -32.
Proof.
  intros H. apply Z.eqb_eq.
  replace v with (v + 32 - 32) at 2 by lia.
  apply (symbol_forall (fun d => Z.lxor d (d - 32) =? -32));
    [vm_compute; reflexivity | unfold is_symbol; lia].
Qed.

(** A symbol written as a negative index is not the symbol the checksum
    was made for. *)
Lemma wrapped_symbol_changes_residue (pre q : list Z) (v : Z) :
  -32 <= v < 0 -> q <> [] ->
  bech32_polymod (pre ++ (v + 32) :: q) <> bech32_polymod (pre ++ v :: q).
Proof.
  intros Hv Hq E. unfold bech32_polymod in E.
  rewrite !fold_left_app in E. cbn [fold_left] in E.
  apply Z.lxor_eq_0_iff in E.
  rewrite Substitution.fold_diff_suffix, Substitution.step_diff_same in E.
  rewrite wrapped_lxor in E by assumption.
  destruct q as [|x q]; [contradiction|]. cbn [length] in E.
  rewrite Substitution.zero_rounds_S in E.
  revert E. apply Substitution.zero_rounds_nonzero.
  - vm_compute. split; [discriminate | reflexivity].
  - vm_compute. discriminate.
Qed.

Lemma encode_success_parts (hrp : str) (witver : Z) (witprog : list Z) (addr : str) :
  encode hrp witver witprog = Ret (Some addr) ->
  valid_hrp hrp /\ valid_witness witver witprog /\
  decode hrp addr = Ret (Some witver, Some witprog).
Proof.
  intros H. unfold encode in H.
  destruct (convertbits_bytes_cases witprog) as [[_ C]|(Fb & five & C & F5 & C2)];
    rewrite C in H; cbn [bind] in H; [discriminate|].
  unfold bech32_encode in H. cbn [app mapM] in H.
  destruct (charset_at_cases witver) as [(Hv & Hw & A)|[_ A]];
    rewrite A in H; cbn [bind] in H; [|discriminate].
  set (cs := bech32_create_checksum hrp (witver :: five)) in *.
  assert (Fr : Forall is_symbol (five ++ cs)).
  { apply Forall_app. split; [assumption | apply create_checksum_range]. }
  rewrite (mapM_charset_at _ Fr) in H. cbn [bind] in H.
  change (hrp ++ str_of "1" ++ charset_char (wrap_index witver) :: map charset_char (five ++ cs))
    with (hrp ++ one :: map charset_char (wrap_index witver :: five ++ cs)) in H.
  set (ret := hrp ++ one :: map charset_char (wrap_index witver :: five ++ cs)) in *.
  destruct (decode_cases hrp ret) as [Dn|(v' & p' & Ds)]; rewrite ?Dn, ?Ds in H;
    cbn [bind is_sentinel] in H; [discriminate|].
  injection H as <-.
  pose proof Ds as Ds'.
  apply decode_success_inv in Ds' as (rest & D & C' & Hl & Hv' & H0).
  apply bech32_decode_of_encoded in D as (Hh & Hd & Vf & Hne & Hlen & Hr);
    [|constructor; assumption].
  rewrite <- Hh in Vf.
  change (wrap_index witver :: five ++ cs) with ((wrap_index witver :: five) ++ cs) in Hd.
  rewrite drop_last6_app in Hd by apply create_checksum_length.
  injection Hd as -> ->. rewrite C2 in C'. injection C' as <-.
  assert (W : wrap_index witver = witver).
  { unfold wrap_index in *. destruct (witver <? 0) eqn:E; [|reflexivity].
    bool_to_prop. exfalso. apply verify_residue in Vf.
    pose proof (create_checksum_residue hrp (witver :: five)) as Cr. fold cs in Cr.
    cbn [app] in Cr. rewrite <- Cr in Vf. revert Vf.
    apply wrapped_symbol_changes_residue; [lia|].
    unfold cs. intros N. apply (f_equal (@length Z)) in N.
    rewrite length_app, create_checksum_length in N. cbn [length] in N. lia. }
  rewrite W in *. unfold is_symbol in Hw.
  split; [|split].
  - unfold valid_hrp. repeat split; trivial. now symmetry.
  - unfold valid_witness. repeat split; trivial; lia.
  - exact Ds.
Qed.

(** X8: [encode] returns a string only on a valid HRP, version and
    program (the converse of the round trip), and the string it returns
    decodes to exactly that version and program; a version written as a
    negative index into the alphabet is refused as well. *)
Theorem encode_success_valid (hrp : str) (witver : Z) (witprog : list Z) (addr : str) :
  encode hrp witver witprog = Ret (Some addr) ->
  valid_hrp hrp /\ valid_witness witver witprog /\
  decode hrp addr = Ret (Some witver, Some witprog).
Proof. apply encode_success_parts. Qed.

Lemma encode_success_valid_witness :
  valid_hrp (str_of "bc") /\ valid_witness 0 (repeat 0 20) /\
  decode (str_of "bc") bc_zero_address = Ret (Some 0, Some (repeat 0 20)).
Proof.
  apply (encode_success_valid (str_of "bc") 0 (repeat 0 20) bc_zero_address).
  vm_compute. reflexivity.
Defined.

(** X9: [encode] never loops and raises nothing but [IndexError]; it
    raises it exactly when every program byte is in range and the version is
    outside -32..31, where [CHARSET[witver]] is out of range. *)
Theorem encode_outcomes (hrp : str) (witver : Z) (witprog : list Z) :
  (encode hrp witver witprog = Raise IndexError <->
   Forall (fun b => 0 <= b <= 255) witprog /\ (witver < -32 \/ 31 < witver)) /\
  (encode hrp witver witprog = Raise IndexError \/
   encode hrp witver witprog = Ret None \/
   exists addr, encode hrp witver witprog = Ret (Some addr)).
Proof.
  unfold encode.
  destruct (convertbits_bytes_cases witprog) as [[NF C]|(Fb & five & C & F5 & C2)];
    rewrite C; cbn [bind].
  { split; [|right; left; reflexivity].
    split; [discriminate|]. intros [F _]. contradiction. }
  unfold bech32_encode. cbn [app mapM].
  destruct (charset_at_cases witver) as [(Hv & Hw & A)|[Hv A]]; rewrite A; cbn [bind].
  2:{ split; [|left; reflexivity]. split; [|reflexivity]. intros _. now split. }
  assert (Fr : Forall is_symbol (five ++ bech32_create_checksum hrp (witver :: five))).
  { apply Forall_app. split; [assumption | apply create_checksum_range]. }
  rewrite (mapM_charset_at _ Fr). cbn [bind].
  match goal with |- context [decode hrp ?r] =>
    destruct (decode_cases hrp r) as [Dn|(v' & p' & Ds)]; rewrite ?Dn, ?Ds
  end; cbn [bind is_sentinel].
  - split; [|right; left; reflexivity]. split; [discriminate|]. intros [_ B]. lia.
  - split; [|right; right; eexists; reflexivity].
    split; [discriminate|]. intros [_ B]. lia.
Qed.

(** * The conversion helpers

    The helpers of the second half of [src/__init__.py] pass results on
    without checking them, so they can raise [TypeError] (iterating or
    unpacking [None]) and [struct.error] besides what the codec raises. *)

Inductive call_exn : Type :=
| Inner (e : exn)
| TypeError
| StructError.

Inductive call (A : Type) : Type :=
| Returns (a : A)
| Raises (e : call_exn)
| Loops.

Arguments Returns {A} a.
Arguments Raises {A} e.
Arguments Loops {A}.

Definition of_outcome {A : Type} (m : outcome A) : call A :=
  match m with
  | Ret a => Returns a
  | Raise e => Raises (Inner e)
  | Diverge => Loops
  end.

Definition call_bind {A B : Type} (m : call A) (k : A -> call B) : call B :=
  match m with
  | Returns a => k a
  | Raises e => Raises e
  | Loops => Loops
  end.

(** [bytes_to_byte_array]. *)
Definition bytes_to_byte_array (bytes : list Z) : call (option (list Z)) :=
  of_outcome (convertbits bytes 8 5 true).

(** [byte_array_to_bech]: [bech32_encode] starts with [list(data)], which
    raises [TypeError] on [None]. *)
Definition byte_array_to_bech (hrp : str) (byte_array : option (list Z)) : call str :=
  match byte_array with
  | None => Raises TypeError
  | Some data => of_outcome (bech32_encode hrp data)
  end.

(** [bytes_to_bech]. *)
Definition bytes_to_bech (hrp : str) (bytes : list Z) : call str :=
  call_bind (bytes_to_byte_array bytes) (byte_array_to_bech hrp).

(** [bech_to_byte_array] and [bech_to_hrp]. *)
Definition bech_to_byte_array (bech32 : str) : option (list Z) := snd (bech32_decode bech32).
Definition bech_to_hrp (bech32 : str) : option str := fst (bech32_decode bech32).

(** [bech_to_bech]. *)
Definition bech_to_bech (bech32 hrp : str) : call str :=
  byte_array_to_bech hrp (bech_to_byte_array bech32).

(** ** Bytes to a Bech32 string and back *)

Lemma bytes_to_bech_parts (hrp : str) (bytes : list Z) :
  valid_hrp hrp -> Forall is_byte bytes ->
  exists s five,
    bytes_to_bech hrp bytes = Returns s /\
    bech32_decode s = (Some hrp, Some five) /\
    convertbits bytes 8 5 true = Ret (Some five) /\
    convertbits five 5 8 false = Ret (Some bytes).
Proof.
  intros Hh Fb.
  destruct (convertbits_roundtrip bytes Fb) as (five & p & C1 & F5 & _ & _ & C2).
  exists (hrp ++ one :: map charset_char (five ++ bech32_create_checksum hrp five)), five.
  split; [|split; [|split]]; trivial.
  - unfold bytes_to_bech, bytes_to_byte_array. rewrite C1. cbn [of_outcome call_bind].
    unfold byte_array_to_bech. now rewrite bech32_encode_symbols.
  - now apply bech32_decode_encode.
Qed.

(** X10: for a valid HRP, [bytes_to_bech] turns any byte string, of any
    length, into a string from which [bech_to_hrp] reads the HRP back and
    [bech_to_byte_array] reads the five-bit form of the bytes, which the
    strict conversion turns into the bytes again. *)
Theorem bytes_to_bech_roundtrip (hrp : str) (bytes : list Z) :
  valid_hrp hrp -> Forall (fun b => 0 <= b <= 255) bytes ->
  exists s five,
    bytes_to_bech hrp bytes = Returns s /\
    bech_to_hrp s = Some hrp /\
    bech_to_byte_array s = Some five /\
    bytes_to_byte_array bytes = Returns (Some five) /\
    convertbits five 5 8 false = Ret (Some bytes).
Proof.
  intros Hh Fb.
  destruct (bytes_to_bech_parts hrp bytes Hh Fb) as (s & five & B & D & C1 & C2).
  exists s, five. unfold bech_to_hrp, bech_to_byte_array, bytes_to_byte_array.
  rewrite D, C1. repeat split; trivial.
Qed.

Lemma bytes_to_bech_roundtrip_witness :
  exists s five,
    bytes_to_bech (str_of "cosmos") [255; 1; 2] = Returns s /\
    bech_to_hrp s = Some (str_of "cosmos") /\
    bech_to_byte_array s = Some five /\
    bytes_to_byte_array [255; 1; 2] = Returns (Some five) /\
    convertbits five 5 8 false = Ret (Some [255; 1; 2]).
Proof.
  apply (bytes_to_bech_roundtrip (str_of "cosmos") [255; 1; 2]).
  - unfold valid_hrp. repeat split; try discriminate; try reflexivity.
    repeat constructor; vm_compute; discriminate.
  - repeat constructor; lia.
Defined.

(** X11: [bech_to_bech] raises [TypeError] exactly on a string that
    [bech32_decode] refuses; on an accepted one it returns a string, which
    for a valid new HRP decodes to that HRP and the same data. *)
Theorem bech_to_bech_outcomes (bech32 hrp : str) :
  (bech32_decode bech32 = (None, None) /\ bech_to_bech bech32 hrp = Raises TypeError) \/
  (exists hrp0 data t,
     bech32_decode bech32 = (Some hrp0, Some data) /\
     bech_to_bech bech32 hrp = Returns t /\
     (valid_hrp hrp -> bech32_decode t = (Some hrp, Some data))).
Proof.
  unfold bech_to_bech, bech_to_byte_array.
  destruct (bech32_decode bech32) as [[hrp0|] [data|]] eqn:D.
  - right. pose proof (bech32_decode_data_range bech32 hrp0 data D) as F.
    exists hrp0, data. eexists. split; [reflexivity|].
    cbn [snd byte_array_to_bech]. rewrite bech32_encode_symbols by assumption.
    split; [reflexivity|]. intros Hh. now apply bech32_decode_encode.
  - rewrite bech32_decode_spec in D. destruct (otherwise_valid _ && _ && _); discriminate.
  - rewrite bech32_decode_spec in D. destruct (otherwise_valid _ && _ && _); discriminate.
  - left. split; reflexivity.
Qed.

(** X12: with the HRP the string already has, [bech_to_bech] returns the
    lowercase form of the string. *)
Theorem bech_to_bech_same_hrp (bech32 hrp : str) :
  bech_to_hrp bech32 = Some hrp ->
  bech_to_bech bech32 hrp = Returns (lower bech32).
Proof.
  unfold bech_to_hrp, bech_to_bech, bech_to_byte_array. intros H.
  destruct (bech32_decode bech32) as [h [data|]] eqn:D; cbn [fst snd] in *; subst h.
  - cbn [byte_array_to_bech]. now rewrite (bech32_encode_of_decode bech32 hrp data D).
  - rewrite bech32_decode_spec in D. destruct (otherwise_valid _ && _ && _); discriminate.
Qed.

Lemma bech_to_bech_same_hrp_witness :
  bech_to_bech (str_of "A12UEL5L") (str_of "a") = Returns (lower (str_of "A12UEL5L")).
Proof.
  apply (bech_to_bech_same_hrp (str_of "A12UEL5L") (str_of "a")).
  vm_compute. reflexivity.
Defined.

(** ** Hexadecimal strings and [struct.pack] *)

Definition hexdigits : str := str_of "0123456789abcdef".

(** [bytes.hex()]: two lowercase digits per byte. *)
Definition bytes_hex (bs : list Z) : str :=
  flat_map
    (fun b => [nth (Z.to_nat (Z.shiftr b 4)) hexdigits 0;
               nth (Z.to_nat (Z.land b 15)) hexdigits 0])
    bs.

(** [bytes_to_hex]. *)
Definition bytes_to_hex (bytes : list Z) : str := bytes_hex bytes.

(** ASCII whitespace, which [bytes.fromhex] skips between bytes
    (CPython 3.7 and later): space, and tab to carriage return. *)
Definition is_space (c : char) : bool := (c =? 32) || ((9 <=? c) && (c <=? 13)).

Definition digit_value (c : char) : option Z :=
  if (48 <=? c) && (c <=? 57) then Some (c - 48)
  else if (97 <=? c) && (c <=? 102) then Some (c - 87)
  else if (65 <=? c) && (c <=? 70) then Some (c - 55)
  else None.

(** [bytes.fromhex]: whitespace is skipped before a byte, a byte is two
    hexadecimal digits of either case, anything else is a [ValueError]. *)
Fixpoint bytes_fromhex (s : str) : call (list Z) :=
  match s with
  | [] => Returns []
  | c :: r =>
      if is_space c then bytes_fromhex r
      else
        match digit_value c, r with
        | Some top, c2 :: r2 =>
            match digit_value c2 with
            | Some bot =>
                call_bind (bytes_fromhex r2) (fun bs => Returns (Z.shiftl top 4 + bot :: bs))
            | None => Raises (Inner ValueError)
            end
        | _, _ => Raises (Inner ValueError)
        end
  end.

(** [hex_to_bytes]. *)
Definition hex_to_bytes (hex : str) : call (list Z) := bytes_fromhex hex.

(** The byte order of the machine, which [struct.pack] with a format
    without prefix follows; a C [int] takes four bytes. *)
Inductive byteorder : Type := LittleEndian | BigEndian.

Definition pack_int (order : byteorder) (v : Z) : list Z :=
  let le := map (fun k => Z.land (Z.shiftr v (8 * Z.of_nat k)) 255) (seq 0 4) in
  match order with
  | LittleEndian => le
  | BigEndian => rev le
  end.

(** [pack("i" * 20, *vals)]: [struct.error] unless there are twenty
    values, each a C [int]. *)
Definition pack_i20 (order : byteorder) (vals : list Z) : call (list Z) :=
  if negb (length vals =? 20)%nat then Raises StructError
  else if forallb (fun v => (-2147483648 <=? v) && (v <=? 2147483647)) vals
  then Returns (flat_map (pack_int order) vals)
  else Raises StructError.

(** ["".join([hex[i:i + 2] for i in range(0, len(hex), 8)])]. *)
Definition pick_bytes (hex : str) : str :=
  flat_map (fun i => firstn 2 (skipn i hex))
    (map (fun k => (8 * k)%nat) (seq 0 ((length hex + 7) / 8))).

(** [byte_array_to_hex]: iterating [None] and unpacking [None] raise
    [TypeError]. *)
Definition byte_array_to_hex (order : byteorder) (byte_array : option (list Z)) : call str :=
  match byte_array with
  | None => Raises TypeError
  | Some data =>
      call_bind (of_outcome (convertbits data 5 8 false)) (fun r =>
        match r with
        | None => Raises TypeError
        | Some decoded =>
            call_bind (pack_i20 order decoded) (fun packed =>
              Returns (pick_bytes (bytes_hex packed)))
        end)
  end.

(** [hex_to_byte_array], [hex_to_bech], [byte_array_to_bytes],
    [bech_to_hex] and [bech_to_bytes]. *)
Definition hex_to_byte_array (hex : str) : call (option (list Z)) :=
  call_bind (hex_to_bytes hex) bytes_to_byte_array.

Definition hex_to_bech (hrp hex : str) : call str :=
  call_bind (hex_to_bytes hex) (bytes_to_bech hrp).

Definition byte_array_to_bytes (order : byteorder) (byte_array : option (list Z))
  : call (list Z) :=
  call_bind (byte_array_to_hex order byte_array) hex_to_bytes.

Definition bech_to_hex (order : byteorder) (bech32 : str) : call str :=
  byte_array_to_hex order (bech_to_byte_array bech32).

Definition bech_to_bytes (order : byteorder) (bech32 : str) : call (list Z) :=
  call_bind (bech_to_hex order bech32) hex_to_bytes.

(** ** Hexadecimal round trip *)

Lemma nibble_forall (P : Z -> bool) :
  forallb P (map Z.of_nat (seq 0 16)) = true -> forall n, 0 <= n <= 15 -> P n = true.
Proof.
  intros H n Hn. rewrite forallb_forall in H. apply H.
  apply in_map_iff. exists (Z.to_nat n). split; [lia|]. apply in_seq. lia.
Qed.

Lemma hexdigit_not_space (n : Z) :
  0 <= n <= 15 -> is_space (nth (Z.to_nat n) hexdigits 0) = false.
Proof.
  intros H. apply Bool.negb_true_iff.
  apply (nibble_forall (fun n => negb (is_space (nth (Z.to_nat n) hexdigits 0))));
    [vm_compute; reflexivity | exact H].
Qed.

Lemma hexdigit_value (n : Z) :
  0 <= n <= 15 -> digit_value (nth (Z.to_nat n) hexdigits 0) = Some n.
Proof.
  intros H.
  assert (C : (match digit_value (nth (Z.to_nat n) hexdigits 0) with
               | Some m => m =? n
               | None => false
               end) = true).
  { apply (nibble_forall (fun n => match digit_value (nth (Z.to_nat n) hexdigits 0) with
                                   | Some m => m =? n
                                   | None => false
                                   end)); [vm_compute; reflexivity | exact H]. }
  destruct (digit_value _) as [m|]; [|discriminate].
  apply Z.eqb_eq in C. now subst.
Qed.

Lemma byte_nibbles (b : Z) :
  is_byte b ->
  0 <= Z.shiftr b 4 <= 15 /\ 0 <= Z.land b 15 <= 15 /\
  Z.shiftl (Z.shiftr b 4) 4 + Z.land b 15 = b.
Proof.
  unfold is_byte. intros H.
  assert (E1 : Z.shiftr b 4 = b / 16) by (rewrite Z.shiftr_div_pow2 by lia; reflexivity).
  assert (E2 : Z.land b 15 = b mod 16) by (apply (Z.land_ones b 4); lia).
  rewrite E1, E2. rewrite Z.shiftl_mul_pow2 by lia. change (2 ^ 4) with 16.
  pose proof (Z.div_mod b 16 ltac:(lia)). pose proof (Z.mod_pos_bound b 16 ltac:(lia)).
  assert (0 <= b / 16) by (apply Z.div_pos; lia).
  assert (b / 16 < 16) by (apply Z.div_lt_upper_bound; lia).
  lia.
Qed.

Lemma fromhex_of_hex (bs : list Z) :
  Forall is_byte bs -> bytes_fromhex (bytes_hex bs) = Returns bs.
Proof.
  induction 1 as [|b bs Hb _ IH]; [reflexivity|].
  destruct (byte_nibbles b Hb) as (Hh & Hl & E).
  cbn [bytes_hex flat_map app bytes_fromhex].
  rewrite hexdigit_not_space, !hexdigit_value by assumption.
  fold (bytes_hex bs). rewrite IH. cbn [call_bind]. now rewrite E.
Qed.

Lemma digit_value_range (c : char) (n : Z) : digit_value c = Some n -> 0 <= n <= 15.
Proof.
  unfold digit_value.
  destruct ((48 <=? c) && (c <=? 57)) eqn:E1;
    [|destruct ((97 <=? c) && (c <=? 102)) eqn:E2;
      [|destruct ((65 <=? c) && (c <=? 70)) eqn:E3]];
    intros H; try discriminate; injection H as <-; bool_to_prop; lia.
Qed.

Lemma fromhex_is_bytes_bounded (n : nat) : forall s bs,
  (length s <= n)%nat -> bytes_fromhex s = Returns bs -> Forall is_byte bs.
Proof.
  induction n as [|n IH]; intros s bs Hn H.
  - destruct s; [|simpl in Hn; lia]. injection H as <-. constructor.
  - destruct s as [|c r]; [injection H as <-; constructor|].
    cbn [bytes_fromhex] in H. cbn [length] in Hn.
    destruct (is_space c); [apply (IH r); [lia | exact H]|].
    destruct (digit_value c) as [top|] eqn:Et; [|discriminate].
    destruct r as [|c2 r2]; [discriminate|].
    destruct (digit_value c2) as [bot|] eqn:Eb; [|discriminate].
    destruct (bytes_fromhex r2) as [bs'| |] eqn:R; cbn [call_bind] in H; try discriminate.
    remember (Z.shiftl top 4 + bot) as x eqn:Ex in H.
    injection H as <-. cbn [length] in Hn. constructor.
    + apply digit_value_range in Et, Eb. unfold is_byte. subst x.
      rewrite Z.shiftl_mul_pow2 by lia. change (2 ^ 4) with 16. lia.
    + apply (IH r2); [lia | exact R].
Qed.

Lemma fromhex_is_bytes (s : str) (bs : list Z) :
  bytes_fromhex s = Returns bs -> Forall is_byte bs.
Proof. apply (fromhex_is_bytes_bounded (length s)). lia. Qed.

(** X13: [hex_to_bytes] inverts [bytes_to_hex] on every byte string. *)
Theorem hex_to_bytes_of_bytes_to_hex (bytes : list Z) :
  Forall (fun b => 0 <= b <= 255) bytes ->
  hex_to_bytes (bytes_to_hex bytes) = Returns bytes.
Proof. apply fromhex_of_hex. Qed.

Lemma hex_to_bytes_of_bytes_to_hex_witness :
  hex_to_bytes (bytes_to_hex [0; 171; 255]) = Returns [0; 171; 255].
Proof.
  apply (hex_to_bytes_of_bytes_to_hex [0; 171; 255]).
  repeat constructor; lia.
Defined.

(** ** What [byte_array_to_hex] returns *)

Lemma flat_map_map {A B C : Type} (f : B -> list C) (g : A -> B) (l : list A) :
  flat_map f (map g l) = flat_map (fun x => f (g x)) l.
Proof. induction l as [|x l IH]; simpl; [reflexivity|]. now rewrite IH. Qed.

Lemma flat_map_flat_map {A B C : Type} (f : B -> list C) (g : A -> list B) (l : list A) :
  flat_map f (flat_map g l) = flat_map (fun x => flat_map f (g x)) l.
Proof.
  induction l as [|x l IH]; simpl; [reflexivity|].
  now rewrite flat_map_app, IH.
Qed.

Lemma length_concat_groups {A : Type} (groups : list (list A)) :
  Forall (fun g => length g = 8%nat) groups ->
  length (concat groups) = (8 * length groups)%nat.
Proof.
  induction 1 as [|g gs Hg _ IH]; [reflexivity|].
  cbn [concat length]. rewrite length_app, Hg, IH. lia.
Qed.

(** Taking two characters at every eighth position of a string made of
    groups of eight takes the first two characters of each group. *)
Lemma pick_groups_from (groups : list (list char)) :
  Forall (fun g => length g = 8%nat) groups ->
  flat_map (fun k => firstn 2 (skipn (8 * k) (concat groups))) (seq 0 (length groups))
  = flat_map (firstn 2) groups.
Proof.
  induction 1 as [|g gs Hg _ IH]; [reflexivity|].
  cbn [length seq flat_map concat]. rewrite <- seq_shift, flat_map_map.
  f_equal.
  - change (8 * 0)%nat with 0%nat. cbn [skipn].
    rewrite firstn_app, Hg. cbn [Nat.sub firstn]. apply app_nil_r.
  - rewrite <- IH. apply flat_map_ext. intros k.
    rewrite skipn_app, Hg, skipn_all2 by lia.
    replace (8 * S k - 8)%nat with (8 * k)%nat by lia. reflexivity.
Qed.

Lemma pick_groups (groups : list (list char)) :
  Forall (fun g => length g = 8%nat) groups ->
  pick_bytes (concat groups) = flat_map (firstn 2) groups.
Proof.
  intros F. unfold pick_bytes. rewrite length_concat_groups by assumption.
  assert (E : ((8 * length groups + 7) / 8)%nat = length groups).
  { symmetry. apply Nat.div_unique with 7%nat; lia. }
  rewrite E, flat_map_map. now apply pick_groups_from.
Qed.

Lemma bytes_hex_packed (order : byteorder) (vals : list Z) :
  bytes_hex (flat_map (pack_int order) vals)
  = concat (map (fun v => bytes_hex (pack_int order v)) vals).
Proof.
  unfold bytes_hex at 1. rewrite flat_map_flat_map. apply flat_map_concat_map.
Qed.

Lemma pick_packed (order : byteorder) (vals : list Z) :
  pick_bytes (bytes_hex (flat_map (pack_int order) vals))
  = flat_map (fun v => firstn 2 (bytes_hex (pack_int order v))) vals.
Proof.
  rewrite bytes_hex_packed, pick_groups, flat_map_map; [reflexivity|].
  apply Forall_map, Forall_forall. intros v _. now destruct order.
Qed.

Lemma pack_first_little (v : Z) :
  is_byte v -> firstn 2 (bytes_hex (pack_int LittleEndian v)) = bytes_hex [v].
Proof.
  unfold is_byte. intros H. unfold pack_int, bytes_hex.
  cbn [seq map flat_map app firstn Z.of_nat].
  replace (Z.land (Z.shiftr v (8 * 0)) 255) with v; [reflexivity|].
  change (8 * 0) with 0. change 255 with (Z.ones 8).
  assert (0 <= v < 2 ^ 8) by (change (2 ^ 8) with 256; lia).
  symmetry. prove_Zeq_bitwise.
Qed.

Lemma pack_first_big (v : Z) :
  is_byte v -> firstn 2 (bytes_hex (pack_int BigEndian v)) = str_of "00".
Proof.
  unfold is_byte. intros H. unfold pack_int, bytes_hex.
  cbn [seq map flat_map app firstn rev Z.of_nat Pos.of_succ_nat Pos.succ].
  replace (Z.land (Z.shiftr v (8 * 3)) 255) with 0; [reflexivity|].
  change (8 * 3) with 24. change 255 with (Z.ones 8).
  assert (0 <= v < 2 ^ 8) by (change (2 ^ 8) with 256; lia).
  symmetry. prove_Zeq_bitwise.
Qed.

Lemma bytes_are_ints (vals : list Z) :
  Forall is_byte vals ->
  forallb (fun v => (-2147483648 <=? v) && (v <=? 2147483647)) vals = true.
Proof.
  intros F. apply forallb_forall. intros v Hv. rewrite Forall_forall in F.
  specialize (F v Hv). unfold is_byte in F. bool_to_prop. lia.
Qed.

Lemma flat_map_ext_in {A B : Type} (f g : A -> list B) (l : list A) :
  (forall x, In x l -> f x = g x) -> flat_map f l = flat_map g l.
Proof.
  induction l as [|x l IH]; intros H; [reflexivity|].
  cbn [flat_map]. rewrite (H x) by now left.
  rewrite IH; [reflexivity|]. intros y Hy. apply H. now right.
Qed.

Lemma flat_map_const {A : Type} (a : char) (l : list A) :
  flat_map (fun _ => [a; a]) l = repeat a (2 * length l).
Proof.
  induction l as [|x l IH]; [reflexivity|].
  cbn [flat_map length]. rewrite IH.
  replace (2 * S (length l))%nat with (S (S (2 * length l))) by lia. reflexivity.
Qed.

(** The hexadecimal string that the byte order gives for twenty bytes. *)
Definition packed_hex (order : byteorder) (bytes : list Z) : str :=
  match order with
  | LittleEndian => bytes_hex bytes
  | BigEndian => repeat 48 40
  end.

Lemma byte_array_to_hex_cases (order : byteorder) (data : list Z) :
  (convertbits data 5 8 false = Ret None /\
   byte_array_to_hex order (Some data) = Raises TypeError) \/
  (exists bytes,
     convertbits data 5 8 false = Ret (Some bytes) /\ Forall is_byte bytes /\
     ((len bytes <> 20 /\ byte_array_to_hex order (Some data) = Raises StructError) \/
      (len bytes = 20 /\
       byte_array_to_hex order (Some data) = Returns (packed_hex order bytes)))).
Proof.
  unfold byte_array_to_hex.
  destruct (convertbits_returns 5 8 ltac:(lia) ltac:(lia) data false) as [[bytes|] C];
    rewrite C; cbn [of_outcome call_bind]; [|left; now split].
  right. exists bytes. split; [reflexivity|].
  pose proof (strict_conversion_inverse data bytes C) as (_ & Fb & _).
  split; [exact Fb|]. unfold pack_i20.
  destruct (length bytes =? 20)%nat eqn:E; cbn [negb].
  - apply Nat.eqb_eq in E. right. split; [unfold len; lia|].
    rewrite bytes_are_ints by assumption. cbn [call_bind]. f_equal.
    rewrite pick_packed. destruct order; cbn [packed_hex].
    + unfold bytes_hex at 2. apply flat_map_ext_in.
      intros v Hv. apply pack_first_little. rewrite Forall_forall in Fb. now apply Fb.
    + rewrite (flat_map_ext_in _ (fun _ => [48; 48])).
      * now rewrite flat_map_const, E.
      * intros v Hv. apply pack_first_big. rewrite Forall_forall in Fb. now apply Fb.
  - apply Nat.eqb_neq in E. left. split; [unfold len; lia | reflexivity].
Qed.

(** X14: [byte_array_to_hex] works for payloads of exactly twenty bytes.
    On five-bit data it raises [TypeError] when the strict conversion
    refuses the data, [struct.error] when the data holds any number of bytes
    other than twenty, and otherwise returns forty characters: on a
    little-endian machine the lowercase hexadecimal form of the bytes, on a
    big-endian machine forty times ["0"]. *)
Theorem byte_array_to_hex_outcomes (order : byteorder) (data : list Z) :
  (convertbits data 5 8 false = Ret None /\
   byte_array_to_hex order (Some data) = Raises TypeError) \/
  (exists bytes,
     convertbits data 5 8 false = Ret (Some bytes) /\
     ((len bytes <> 20 /\ byte_array_to_hex order (Some data) = Raises StructError) \/
      (len bytes = 20 /\
       byte_array_to_hex order (Some data)
         = Returns (match order with
                    | LittleEndian => bytes_to_hex bytes
                    | BigEndian => repeat 48 40
                    end)))).
Proof.
  destruct (byte_array_to_hex_cases order data) as [N|(bytes & C & _ & R)];
    [now left|].
  right. exists bytes. split; [exact C|]. exact R.
Qed.

(** ** The helpers composed *)

Lemma bech_to_hex_of_decoded (order : byteorder) (s hrp : str) (data : list Z) :
  bech32_decode s = (Some hrp, Some data) ->
  bech_to_hex order s = byte_array_to_hex order (Some data).
Proof. intros D. unfold bech_to_hex, bech_to_byte_array. now rewrite D. Qed.

Lemma byte_array_to_hex_of_bytes (order : byteorder) (five bytes : list Z) :
  convertbits five 5 8 false = Ret (Some bytes) ->
  (len bytes = 20 ->
   byte_array_to_hex order (Some five) = Returns (packed_hex order bytes)) /\
  (len bytes <> 20 -> byte_array_to_hex order (Some five) = Raises StructError).
Proof.
  intros C.
  destruct (byte_array_to_hex_cases order five) as [[N _]|(b & C' & _ & R)].
  - rewrite C in N. discriminate.
  - rewrite C in C'. injection C' as <-.
    destruct R as [[L R]|[L R]]; split; intros L'; try contradiction; exact R.
Qed.

(** X15: for a valid HRP, [bech_to_bytes] and [bech_to_hex] read back
    what [bytes_to_bech] wrote when the payload has exactly twenty bytes
    (on a little-endian machine), and raise [struct.error] for every other
    payload length, on any machine. *)
Theorem bech_to_bytes_of_bytes_to_bech (hrp : str) (bytes : list Z) :
  valid_hrp hrp -> Forall (fun b => 0 <= b <= 255) bytes ->
  exists s,
    bytes_to_bech hrp bytes = Returns s /\
    (len bytes = 20 ->
     bech_to_hex LittleEndian s = Returns (bytes_to_hex bytes) /\
     bech_to_bytes LittleEndian s = Returns bytes) /\
    (len bytes <> 20 ->
     forall order,
       bech_to_hex order s = Raises StructError /\
       bech_to_bytes order s = Raises StructError).
Proof.
  intros Hh Fb.
  destruct (bytes_to_bech_parts hrp bytes Hh Fb) as (s & five & B & D & _ & C2).
  exists s. split; [exact B|]. split.
  - intros L. unfold bech_to_bytes.
    rewrite (bech_to_hex_of_decoded LittleEndian s hrp five D).
    rewrite (proj1 (byte_array_to_hex_of_bytes LittleEndian five bytes C2) L).
    split; [reflexivity|]. cbn [call_bind packed_hex]. now apply fromhex_of_hex.
  - intros L order. unfold bech_to_bytes.
    rewrite (bech_to_hex_of_decoded order s hrp five D).
    rewrite (proj2 (byte_array_to_hex_of_bytes order five bytes C2) L).
    split; reflexivity.
Qed.

Lemma bech_to_bytes_of_bytes_to_bech_witness :
  exists s,
    bytes_to_bech (str_of "cosmos") (repeat 7 20) = Returns s /\
    (len (repeat 7 20) = 20 ->
     bech_to_hex LittleEndian s = Returns (bytes_to_hex (repeat 7 20)) /\
     bech_to_bytes LittleEndian s = Returns (repeat 7 20)) /\
    (len (repeat 7 20) <> 20 ->
     forall order,
       bech_to_hex order s = Raises StructError /\
       bech_to_bytes order s = Raises StructError).
Proof.
  apply (bech_to_bytes_of_bytes_to_bech (str_of "cosmos") (repeat 7 20)).
  - unfold valid_hrp. repeat split; try discriminate; try reflexivity.
    repeat constructor; vm_compute; discriminate.
  - repeat constructor; lia.
Defined.

(** X16: for a valid HRP and a hexadecimal string of twenty bytes (in
    either case, with or without whitespace between the bytes),
    [bech_to_hex] on the result of [hex_to_bech] returns the lowercase
    hexadecimal form of the same bytes, on a little-endian machine. *)
Theorem bech_to_hex_of_hex_to_bech (hrp hex : str) (bytes : list Z) :
  valid_hrp hrp -> hex_to_bytes hex = Returns bytes -> len bytes = 20 ->
  exists s,
    hex_to_bech hrp hex = Returns s /\
    bech_to_hex LittleEndian s = Returns (bytes_to_hex bytes).
Proof.
  intros Hh Hx L. pose proof (fromhex_is_bytes hex bytes Hx) as Fb.
  destruct (bytes_to_bech_parts hrp bytes Hh Fb) as (s & five & B & D & _ & C2).
  exists s. unfold hex_to_bech. rewrite Hx. cbn [call_bind]. split; [exact B|].
  rewrite (bech_to_hex_of_decoded LittleEndian s hrp five D).
  exact (proj1 (byte_array_to_hex_of_bytes LittleEndian five bytes C2) L).
Qed.

Lemma bech_to_hex_of_hex_to_bech_witness :
  exists s,
    hex_to_bech (str_of "cosmos") (str_of "000102030405060708090A0B0C0D0E0F 10111213")
      = Returns s /\
    bech_to_hex LittleEndian s
      = Returns (bytes_to_hex [0; 1; 2; 3; 4; 5; 6; 7; 8; 9; 10; 11; 12; 13; 14; 15;
                               16; 17; 18; 19]).
Proof.
  apply (bech_to_hex_of_hex_to_bech (str_of "cosmos")
           (str_of "000102030405060708090A0B0C0D0E0F 10111213")).
  - unfold valid_hrp. repeat split; try discriminate; try reflexivity.
    repeat constructor; vm_compute; discriminate.
  - vm_compute. reflexivity.
  - reflexivity.
Defined.

(** X17: [byte_array_to_bytes] inverts [bytes_to_byte_array] on twenty
    bytes (on a little-endian machine), and [hex_to_byte_array] on the
    hexadecimal form of any bytes is [bytes_to_byte_array] on the bytes. *)
Theorem byte_array_helpers_roundtrip (bytes : list Z) :
  Forall (fun b => 0 <= b <= 255) bytes ->
  exists five,
    bytes_to_byte_array bytes = Returns (Some five) /\
    hex_to_byte_array (bytes_to_hex bytes) = Returns (Some five) /\
    (len bytes = 20 -> byte_array_to_bytes LittleEndian (Some five) = Returns bytes).
Proof.
  intros Fb.
  destruct (convertbits_roundtrip bytes Fb) as (five & p & C1 & _ & _ & _ & C2).
  exists five. unfold hex_to_byte_array, hex_to_bytes, bytes_to_hex.
  rewrite fromhex_of_hex by assumption. cbn [call_bind].
  unfold bytes_to_byte_array. rewrite C1. repeat split.
  intros L. unfold byte_array_to_bytes.
  rewrite (proj1 (byte_array_to_hex_of_bytes LittleEndian five bytes C2) L).
  cbn [call_bind packed_hex]. now apply fromhex_of_hex.
Qed.

Lemma byte_array_helpers_roundtrip_witness :
  exists five,
    bytes_to_byte_array (repeat 255 20) = Returns (Some five) /\
    hex_to_byte_array (bytes_to_hex (repeat 255 20)) = Returns (Some five) /\
    (len (repeat 255 20) = 20 ->
     byte_array_to_bytes LittleEndian (Some five) = Returns (repeat 255 20)).
Proof.
  apply (byte_array_helpers_roundtrip (repeat 255 20)).
  repeat constructor; lia.
Defined.

(** X18: the helpers do not read witness addresses of twenty-byte
    programs: on every address that [decode] accepts with such a program,
    the data holds the version symbol too, the strict conversion refuses its
    165 bits, and [bech_to_hex] raises [TypeError]. *)
Theorem bech_to_hex_on_witness_address
  (order : byteorder) (hrp addr : str) (witver : Z) (witprog : list Z) :
  decode hrp addr = Ret (Some witver, Some witprog) ->
  len witprog = 20 ->
  bech_to_hex order addr = Raises TypeError.
Proof.
  intros H L. apply decode_success_inv in H as (rest & D & C & _).
  pose proof (bech32_decode_data_range addr hrp (witver :: rest) D) as Fd.
  rewrite (bech_to_hex_of_decoded order addr hrp (witver :: rest) D).
  apply strict_conversion_inverse in C as (_ & Fb & C).
  apply Forall_is_byte in Fb.
  destruct (convertbits_pad 8 5 ltac:(lia) ltac:(lia) witprog Fb)
    as (ys & q & C' & Hq & _ & _ & Ly).
  rewrite C in C'. injection C' as <-.
  apply Forall_is_symbol in Fd.
  destruct (convertbits_strict 5 8 ltac:(lia) ltac:(lia) (witver :: rest) Fd)
    as (acc & bits & ret & (Hb & _ & _ & _ & Hlen) & R).
  assert (Lr : len (witver :: rest) = len rest + 1) by (unfold len; cbn [length]; lia).
  assert (B : bits = 5) by lia.
  unfold byte_array_to_hex. rewrite R, B. reflexivity.
Qed.

Lemma bech_to_hex_on_witness_address_witness :
  bech_to_hex LittleEndian bc_zero_address = Raises TypeError.
Proof.
  apply (bech_to_hex_on_witness_address LittleEndian (str_of "bc") bc_zero_address
           0 (repeat 0 20)).
  - vm_compute. reflexivity.
  - reflexivity.
Defined.
